(** * API-key lifecycle and usage accounting of AI_Tool_Nest_API

    A shallow embedding of [app/core/security.py],
    [app/models/api_key.py], [app/models/api_key_usage.py],
    [app/schemas/api_key.py], [app/services/api_key_service.py], the
    key-management routes of [app/api/v1/endpoints/api_keys.py] and the
    gated routes of [app/api/v1/endpoints/ai_tools].

    Conventions.
    - A Python [str] is a [string]; every character is a code point below
      256 (the generated tokens are ASCII, and a header value reaches the
      service decoded as latin-1).  [str.encode()] is UTF-8.
    - A Python [int] is a [Z], a [datetime] is a [Z] (a point on the UTC
      time line), a [float] is a primitive binary64 [float].
    - The database session is an explicit [Store]; a service method is a
      function from the store to an [outcome]: the value it returns with
      the committed store, or the exception it raises (nothing is committed
      then).  A table is the list of its rows in the order of their
      insertion; the order in which the server returns the rows of a query
      without ORDER BY is not fixed by the code.  The server accepts what
      is committed: its refusals (a code point 0 in a text value, a foreign
      key without its row) are not part of the model.
    - [datetime.utcnow()] and [secrets.token_urlsafe(32)] are inputs of the
      methods that call them ([now], [token]). *)

From Stdlib Require Import ZArith String Ascii List Lia.
From Stdlib Require Import PrimFloat Uint63.
From Stdlib Require FloatOps FloatAxioms SpecFloat.
From stdpp Require Import gmap strings list fin_maps sorting.

Local Open Scope string_scope.
Local Open Scope Z_scope.

(* ===================================================================== *)
(** ** Python strings *)
(* ===================================================================== *)

(** [s[:n]] *)
Fixpoint str_take (n : nat) (s : string) : string :=
  match n, s with
  | S n', String c s' => String c (str_take n' s')
  | _, _ => EmptyString
  end.

(** [s.encode()]: the UTF-8 bytes of a string of code points below 256. *)
Fixpoint encode (s : string) : list Z :=
  match s with
  | EmptyString => []
  | String c s' =>
      let n := Z.of_N (N_of_ascii c) in
      if n <? 128 then n :: encode s'
      else Z.lor 0xC0 (Z.shiftr n 6) :: Z.lor 0x80 (Z.land n 0x3F) :: encode s'
  end.

(* ===================================================================== *)
(** ** hashlib.sha256 (FIPS 180-4), on 32-bit words held in [Z] *)
(* ===================================================================== *)

Module SHA256.

Definition w32 (x : Z) : Z := Z.land x 0xFFFFFFFF.
Definition add32 (x y : Z) : Z := w32 (x + y).
Definition rotr (n x : Z) : Z := Z.lor (Z.shiftr x n) (w32 (Z.shiftl x (32 - n))).
Definition not32 (x : Z) : Z := Z.lxor x 0xFFFFFFFF.

Definition Ch (x y z : Z) : Z := Z.lxor (Z.land x y) (Z.land (not32 x) z).
Definition Maj (x y z : Z) : Z :=
  Z.lxor (Z.lxor (Z.land x y) (Z.land x z)) (Z.land y z).
Definition Sigma0 (x : Z) : Z := Z.lxor (Z.lxor (rotr 2 x) (rotr 13 x)) (rotr 22 x).
Definition Sigma1 (x : Z) : Z := Z.lxor (Z.lxor (rotr 6 x) (rotr 11 x)) (rotr 25 x).
Definition sigma0 (x : Z) : Z := Z.lxor (Z.lxor (rotr 7 x) (rotr 18 x)) (Z.shiftr x 3).
Definition sigma1 (x : Z) : Z := Z.lxor (Z.lxor (rotr 17 x) (rotr 19 x)) (Z.shiftr x 10).

(** The constants are fractional parts of roots of the first primes. *)
Definition is_prime (n : Z) : bool :=
  (1 <? n) && forallb (fun d => negb (n mod d =? 0)) (seqZ 2 (n - 2)).

Definition primes (n : nat) : list Z := take n (List.filter is_prime (seqZ 2 400)).

(** The integer cube root, one bit at a time from bit [bits - 1] down. *)
Fixpoint cube_root (bits : nat) (n r : Z) : Z :=
  match bits with
  | O => r
  | S b =>
      let r' := r + 2 ^ Z.of_nat b in
      cube_root b n (if r' * r' * r' <=? n then r' else r)
  end.

(** The first 32 bits of the fractional part of the cube (square) root. *)
Definition frac_cube_root (p : Z) : Z := w32 (cube_root 40 (p * 2 ^ 96) 0).
Definition frac_square_root (p : Z) : Z := w32 (Z.sqrt (p * 2 ^ 64)).

Definition K : list Z := Eval vm_compute in map frac_cube_root (primes 64).

(** The eight working words a..h, also the running hash value. *)
Record state := State {
  sa : Z; sb : Z; sc : Z; sd : Z; se : Z; sf : Z; sg : Z; sh : Z }.

Definition H0 : state :=
  match map frac_square_root (primes 8) with
  | [a; b; c; d; e; f; g; h] => State a b c d e f g h
  | _ => State 0 0 0 0 0 0 0 0
  end.

(** Padding: a 1 bit, zeros up to 56 mod 64, the bit length on 8 bytes. *)
Definition be_bytes (n : nat) (x : Z) : list Z :=
  map (fun i => Z.land (Z.shiftr x (8 * Z.of_nat i)) 0xFF) (rev (seq 0 n)).

Definition pad (msg : list Z) : list Z :=
  let len := Z.of_nat (length msg) in
  let zeros := Z.to_nat ((55 - len) mod 64) in
  msg ++ 0x80 :: repeat 0 zeros ++ be_bytes 8 (8 * len).

Definition word_of_bytes (b : list Z) : Z :=
  fold_left (fun acc x => Z.lor (Z.shiftl acc 8) x) b 0.

(** [n] big-endian words read from a block. *)
Fixpoint words (n : nat) (b : list Z) : list Z :=
  match n with
  | O => []
  | S n' => word_of_bytes (firstn 4 b) :: words n' (skipn 4 b)
  end.

(** The message schedule, newest word first: [w] holds W[t-1], W[t-2], ... *)
Fixpoint schedule (n : nat) (w : list Z) : list Z :=
  match n with
  | O => w
  | S n' =>
      let wt := add32 (add32 (sigma1 (nth 1 w 0)) (nth 6 w 0))
                      (add32 (sigma0 (nth 14 w 0)) (nth 15 w 0)) in
      schedule n' (wt :: w)
  end.

Definition round (s : state) (kw : Z * Z) : state :=
  let t1 := add32 (add32 (add32 (sh s) (Sigma1 (se s)))
                         (add32 (Ch (se s) (sf s) (sg s)) (fst kw))) (snd kw) in
  let t2 := add32 (Sigma0 (sa s)) (Maj (sa s) (sb s) (sc s)) in
  State (add32 t1 t2) (sa s) (sb s) (sc s) (add32 (sd s) t1) (se s) (sf s) (sg s).

Definition compress (h : state) (block : list Z) : state :=
  let w := rev (schedule 48 (rev (words 16 block))) in
  let s := fold_left round (combine K w) h in
  State (add32 (sa h) (sa s)) (add32 (sb h) (sb s)) (add32 (sc h) (sc s))
        (add32 (sd h) (sd s)) (add32 (se h) (se s)) (add32 (sf h) (sf s))
        (add32 (sg h) (sg s)) (add32 (sh h) (sh s)).

Fixpoint blocks (n : nat) (h : state) (m : list Z) : state :=
  match n with
  | O => h
  | S n' => blocks n' (compress h (firstn 64 m)) (skipn 64 m)
  end.

Definition digest (msg : list Z) : state :=
  let m := pad msg in blocks (length m / 64) H0 m.

Definition hex_digit (n : Z) : ascii :=
  ascii_of_N (Z.to_N (if n <? 10 then 48 + n else 87 + n)).

Definition nibble (i : Z) (x : Z) : ascii :=
  hex_digit (Z.land (Z.shiftr x (4 * i)) 0xF).

(** One word as eight lower-case hexadecimal digits, then the rest. *)
Definition hex8 (x : Z) (rest : string) : string :=
  String (nibble 7 x) (String (nibble 6 x) (String (nibble 5 x)
  (String (nibble 4 x) (String (nibble 3 x) (String (nibble 2 x)
  (String (nibble 1 x) (String (nibble 0 x) rest))))))).

Definition hexdigest (s : state) : string :=
  hex8 (sa s) (hex8 (sb s) (hex8 (sc s) (hex8 (sd s)
  (hex8 (se s) (hex8 (sf s) (hex8 (sg s) (hex8 (sh s) EmptyString))))))).

End SHA256.

(* ===================================================================== *)
(** ** app/core/security.py *)
(* ===================================================================== *)

(** The alphabet of [base64.urlsafe_b64encode]. *)
Definition b64_char (n : Z) : ascii :=
  ascii_of_N (Z.to_N (
    if n <? 26 then 65 + n
    else if n <? 52 then 97 + (n - 26)
    else if n <? 62 then 48 + (n - 52)
    else if n =? 62 then 45 else 95)).

(** [base64.urlsafe_b64encode(tok).rstrip(b'=').decode('ascii')]: three
    bytes give four characters; the padding of a last group of one or two
    bytes is stripped. *)
Fixpoint token_urlsafe (tok : list Z) : string :=
  match tok with
  | a :: b :: c :: rest =>
      String (b64_char (Z.shiftr a 2))
      (String (b64_char (Z.lor (Z.shiftl (Z.land a 3) 4) (Z.shiftr b 4)))
      (String (b64_char (Z.lor (Z.shiftl (Z.land b 15) 2) (Z.shiftr c 6)))
      (String (b64_char (Z.land c 63)) (token_urlsafe rest))))
  | [a; b] =>
      String (b64_char (Z.shiftr a 2))
      (String (b64_char (Z.lor (Z.shiftl (Z.land a 3) 4) (Z.shiftr b 4)))
      (String (b64_char (Z.shiftl (Z.land b 15) 2)) EmptyString))
  | [a] =>
      String (b64_char (Z.shiftr a 2))
      (String (b64_char (Z.shiftl (Z.land a 3) 4)) EmptyString)
  | [] => EmptyString
  end.

(** [secrets.token_urlsafe(32)]; [token_bytes n] is what the system's
    random source gives for [secrets.token_bytes(n)]. *)
Definition generate_api_key (token_bytes : nat -> list Z) : string :=
  token_urlsafe (token_bytes 32%nat).

(** [hashlib.sha256(api_key.encode()).hexdigest()] *)
Definition get_api_key_hash (api_key : string) : string :=
  SHA256.hexdigest (SHA256.digest (encode api_key)).

(** [get_api_key_hash(api_key) == stored_hash] *)
Definition verify_api_key (api_key stored_hash : string) : bool :=
  String.eqb (get_api_key_hash api_key) stored_hash.

(* ===================================================================== *)
(** ** app/models *)
(* ===================================================================== *)

Inductive KeyStatus := ACTIVE | REVOKED | EXPIRED.

#[global] Instance KeyStatus_eq_dec : EqDecision KeyStatus.
Proof. solve_decision. Defined.

(** The value of a member of the [str] enumeration. *)
Definition KeyStatus_value (st : KeyStatus) : string :=
  match st with
  | ACTIVE => "active"
  | REVOKED => "revoked"
  | EXPIRED => "expired"
  end.

(** A row of [api_keys].

    Modelled from the spec: [TimestampModel] ([app/models/base.py]) is not
    among the sources; the spec gives a Credential a creation time, set
    when the row is inserted, and the routes read it as [created_at]. *)
Module APIKey.
Record t := mk {
  id : Z;
  key_prefix : string;
  key_hash : string;
  name : string;
  status : KeyStatus;
  expires_at : option Z;
  last_used_at : option Z;
  revoked_at : option Z;
  user_id : Z;
  created_at : Z }.

Definition set_last_used_at (v : option Z) (k : t) : t :=
  mk (id k) (key_prefix k) (key_hash k) (name k) (status k) (expires_at k)
     v (revoked_at k) (user_id k) (created_at k).
Definition set_status (v : KeyStatus) (k : t) : t :=
  mk (id k) (key_prefix k) (key_hash k) (name k) v (expires_at k)
     (last_used_at k) (revoked_at k) (user_id k) (created_at k).
Definition set_revoked_at (v : option Z) (k : t) : t :=
  mk (id k) (key_prefix k) (key_hash k) (name k) (status k) (expires_at k)
     (last_used_at k) v (user_id k) (created_at k).
End APIKey.

(** A row of [api_key_usage]. *)
Module APIKeyUsage.
Record t := mk {
  id : Z;
  endpoint : string;
  method : string;
  status_code : Z;
  response_time : float;
  ip_address : string;
  user_agent : option string;
  api_key_id : Z;
  created_at : Z }.
End APIKeyUsage.

(** A row of [users]. *)
Module User.
Record t := mk {
  id : Z;
  email : string;
  username : string;
  hashed_password : string;
  is_active : bool;
  is_superuser : bool }.
End User.

(* ===================================================================== *)
(** ** app/schemas/api_key.py *)
(* ===================================================================== *)

Module APIKeyCreate.
Record t := mk { name : string }.
End APIKeyCreate.

Module APIKeyResponse.
Record t := mk {
  id : Z;
  name : string;
  key_prefix : string;
  status : string;
  created_at : Z;
  last_used_at : option Z;
  revoked_at : option Z }.
End APIKeyResponse.

Module APIKeyCreateResponse.
Record t := mk {
  base : APIKeyResponse.t;
  api_key : string }.
End APIKeyCreateResponse.

Module APIKeyUsageEntry.
Record t := mk {
  endpoint : string;
  method : string;
  status_code : Z;
  response_time : float;
  ip_address : string;
  user_agent : option string;
  created_at : Z }.
End APIKeyUsageEntry.

Module APIKeyUsageStats.
Record t := mk {
  total_requests : Z;
  successful_requests : Z;
  failed_requests : Z;
  average_response_time : float;
  usage_by_endpoint : gmap string Z;
  recent_usage : list APIKeyUsageEntry.t }.
End APIKeyUsageStats.

(* ===================================================================== *)
(** ** The session: tables, exceptions, queries *)
(* ===================================================================== *)

(** The tables in row order, and the next value of each key sequence. *)
Record Store := mkStore {
  api_keys : list APIKey.t;
  api_key_usage : list APIKeyUsage.t;
  users : list User.t;
  api_keys_seq : Z;
  api_key_usage_seq : Z }.

(** The exceptions that leave a method or a handler.  [CancelledError]
    ([asyncio.CancelledError], raised in a handler whose client has gone)
    is a [BaseException] and no [Exception]: an [except Exception] clause
    does not catch it. *)
Inductive exn :=
  | MultipleResultsFound
  | ValidationError
  | HTTPException (status_code : Z)
  | CancelledError.

Inductive outcome (A : Type) :=
  | Ok (a : A)
  | Raise (e : exn).
Arguments Ok {A} a.
Arguments Raise {A} e.

(** A method of a service that holds the session. *)
Definition DB (A : Type) : Type := Store -> outcome (A * Store).

#[global] Instance DB_ret : MRet DB := fun A a s => Ok (a, s).
#[global] Instance DB_bind : MBind DB := fun A B f m s =>
  match m s with
  | Ok (a, s') => f a s'
  | Raise e => Raise e
  end.

Definition raise {A} (e : exn) : DB A := fun _ => Raise e.
Definition get_store : DB Store := fun s => Ok (s, s).
Definition put_store (s : Store) : DB unit := fun _ => Ok (tt, s).

(** [result.scalar_one_or_none()] *)
Definition scalar_one_or_none {A} (rows : list A) : DB (option A) :=
  match rows with
  | [] => mret None
  | [r] => mret (Some r)
  | _ => raise MultipleResultsFound
  end.

(** [session.add(row); commit(); refresh(row)] on [api_keys]: the row gets
    the next key of the sequence and goes to the end of the table.  This
    is the commit of a row the server accepts; what PostgreSQL refuses (a
    text value that holds the code point 0, an owner without a row in
    [users]) is not part of the session modelled here. *)
Definition add_api_key (row : Z -> APIKey.t) : DB APIKey.t := fun s =>
  let r := row (api_keys_seq s) in
  Ok (r, mkStore (api_keys s ++ [r]) (api_key_usage s) (users s)
                 (api_keys_seq s + 1) (api_key_usage_seq s)).

Definition add_api_key_usage (row : Z -> APIKeyUsage.t) : DB APIKeyUsage.t := fun s =>
  let r := row (api_key_usage_seq s) in
  Ok (r, mkStore (api_keys s) (api_key_usage s ++ [r]) (users s)
                 (api_keys_seq s) (api_key_usage_seq s + 1)).

(** Flushing the changed attributes of a loaded row:
    [UPDATE api_keys SET ... WHERE id = pk].  The list keeps the row at its
    index; where the server puts the new version of the row, and so the
    order in which a later query without ORDER BY returns the rows, is not
    fixed by the code. *)
Definition update_rows (pk : Z) (f : APIKey.t -> APIKey.t)
    (rows : list APIKey.t) : list APIKey.t :=
  map (fun r => if decide (APIKey.id r = pk) then f r else r) rows.

Definition with_api_keys (rows : list APIKey.t) (s : Store) : Store :=
  mkStore rows (api_key_usage s) (users s) (api_keys_seq s) (api_key_usage_seq s).

Definition update_api_key (pk : Z) (f : APIKey.t -> APIKey.t) : DB unit := fun s =>
  Ok (tt, with_api_keys (update_rows pk f (api_keys s)) s).

(* ===================================================================== *)
(** ** Python built-ins used by the statistics *)
(* ===================================================================== *)

(** [sum] over integers. *)
Definition sum_int (l : list Z) : Z := fold_left Z.add l 0.

(** [sum] over floats as CPython computes it up to version 3.11: the
    integer start value 0 is converted on the first addition, the terms are
    added from the left.  From 3.12 on the interpreter compensates the
    rounding errors of this sum, so the methods that sum floats take the
    summation [fsum] of their interpreter as an argument. *)
Definition sum_float (l : list float) : float := fold_left PrimFloat.add l 0%float.

(** One turn of the loop of [sum] over floats from CPython 3.12 on: the
    rounded sum [f_result] and, in [c], what the additions lost
    (Neumaier's summation). *)
Definition cs_add (total : float * float) (x : float) : float * float :=
  let '(f_result, c) := total in
  let t := (f_result + x)%float in
  (t, if (abs x <=? abs f_result)%float
      then (c + ((f_result - t) + x))%float
      else (c + ((x - t) + f_result))%float).

(** [sum] over floats as CPython computes it from version 3.12 on
    ([builtin_sum_impl]): the first term is added to the start value 0,
    the loop runs from the second term on, and at the end [c] is added
    when it is neither zero nor infinite nor a NaN. *)
Definition sum_float_compensated (l : list float) : float :=
  match l with
  | [] => 0%float
  | x0 :: rest =>
      let '(f_result, c) := fold_left cs_add rest ((0 + x0)%float, 0%float) in
      if negb (PrimFloat.is_zero c) && PrimFloat.is_finite c
      then (f_result + c)%float else f_result
  end.

(** The conversion of the integer divisor of a true division
    (a list length: non-negative, far below 2^63). *)
Definition float_of_int (n : Z) : float := PrimFloat.of_uint63 (Uint63.of_Z n).

(** [sorted(l, key=key, reverse=True)]: the sort is stable, rows of equal
    key keep the order they have in [l]. *)
Section Sorted.
Context {A : Type} (key : A -> Z).

Fixpoint insert_reverse (x : A) (l : list A) : list A :=
  match l with
  | [] => [x]
  | y :: l' =>
      if decide (key y <= key x) then x :: y :: l'
      else y :: insert_reverse x l'
  end.

Definition sorted_reverse (l : list A) : list A :=
  foldr insert_reverse [] l.
End Sorted.

(* ===================================================================== *)
(** ** app/services/api_key_service.py *)
(* ===================================================================== *)

Module APIKeyService.

(** [token] is what [generate_api_key()] returns. *)
Definition create_api_key (token : string) (now : Z)
    (user_id : Z) (name : string) : DB (APIKey.t * string) :=
  let api_key := token in
  let key_hash := get_api_key_hash api_key in
  let key_prefix := str_take 8 api_key in
  db_key ← add_api_key (fun pk =>
    APIKey.mk pk key_prefix key_hash name ACTIVE None None None user_id now);
  mret (db_key, api_key).

Definition get_user_api_keys (user_id : Z) : DB (list APIKey.t) :=
  s ← get_store;
  mret (filter (fun k => APIKey.user_id k = user_id ∧ APIKey.revoked_at k = None)
               (api_keys s)).

Definition revoke_api_key (now : Z) (key_id user_id : Z) : DB (option APIKey.t) :=
  s ← get_store;
  api_key ← scalar_one_or_none
    (filter (fun k => APIKey.id k = key_id ∧ APIKey.user_id k = user_id
                      ∧ APIKey.revoked_at k = None) (api_keys s));
  match api_key with
  | Some k =>
      let upd r := APIKey.set_revoked_at (Some now) (APIKey.set_status REVOKED r) in
      update_api_key (APIKey.id k) upd;;
      mret (Some (upd k))
  | None => mret None
  end.

Definition verify_and_update_key (now : Z) (api_key : string) : DB (option APIKey.t) :=
  let key_prefix := str_take 8 api_key in
  s ← get_store;
  db_key ← scalar_one_or_none
    (filter (fun k => APIKey.key_prefix k = key_prefix ∧ APIKey.status k = ACTIVE)
            (api_keys s));
  match db_key with
  | Some k =>
      if verify_api_key api_key (APIKey.key_hash k) then
        let upd := APIKey.set_last_used_at (Some now) in
        update_api_key (APIKey.id k) upd;;
        mret (Some (upd k))
      else mret None
  | None => mret None
  end.

Definition get_user_by_api_key (now : Z) (api_key : string) : DB (option User.t) :=
  let key_hash := get_api_key_hash api_key in
  let key_prefix := str_take 8 api_key in
  s ← get_store;
  db_key ← scalar_one_or_none
    (filter (fun k => APIKey.key_hash k = key_hash ∧ APIKey.key_prefix k = key_prefix
                      ∧ APIKey.revoked_at k = None) (api_keys s));
  match db_key with
  | None => mret None
  | Some k =>
      update_api_key (APIKey.id k) (APIKey.set_last_used_at (Some now));;
      scalar_one_or_none (filter (fun u => User.id u = APIKey.user_id k) (users s))
  end.

Definition usage_entry (log : APIKeyUsage.t) : APIKeyUsageEntry.t :=
  APIKeyUsageEntry.mk
    (APIKeyUsage.endpoint log) (APIKeyUsage.method log)
    (APIKeyUsage.status_code log) (APIKeyUsage.response_time log)
    (APIKeyUsage.ip_address log) (APIKeyUsage.user_agent log)
    (APIKeyUsage.created_at log).

(** The loop [usage_by_endpoint[e] = usage_by_endpoint.get(e, 0) + 1]. *)
Definition count_by_endpoint (usage_logs : list APIKeyUsage.t) : gmap string Z :=
  fold_left (fun (m : gmap string Z) log =>
               <[APIKeyUsage.endpoint log :=
                   default 0 (m !! APIKeyUsage.endpoint log) + 1]> m)
            usage_logs ∅.

Definition get_key_usage_stats (fsum : list float -> float)
    (key_id user_id : Z) : DB (option APIKeyUsageStats.t) :=
  s ← get_store;
  owned ← scalar_one_or_none
    (filter (fun k => APIKey.id k = key_id ∧ APIKey.user_id k = user_id) (api_keys s));
  match owned with
  | None => mret None
  | Some _ =>
      let usage_logs :=
        filter (fun l => APIKeyUsage.api_key_id l = key_id) (api_key_usage s) in
      match usage_logs with
      | [] => mret (Some (APIKeyUsageStats.mk 0 0 0 0%float ∅ []))
      | _ =>
          let total_requests := Z.of_nat (length usage_logs) in
          let successful_requests :=
            sum_int ((fun _ => 1) <$>
                     filter (fun l => APIKeyUsage.status_code l < 400) usage_logs) in
          let failed_requests := total_requests - successful_requests in
          let average_response_time :=
            (fsum (APIKeyUsage.response_time <$> usage_logs)
             / float_of_int total_requests)%float in
          let usage_by_endpoint := count_by_endpoint usage_logs in
          let recent_usage :=
            take 10 (sorted_reverse APIKeyUsage.created_at usage_logs) in
          mret (Some (APIKeyUsageStats.mk
                        total_requests successful_requests failed_requests
                        average_response_time usage_by_endpoint
                        (usage_entry <$> recent_usage)))
      end
  end.

(** The row's [created_at] is the time of the insert. *)
Definition log_api_key_usage (now : Z) (api_key_id : Z) (endpoint method : string)
    (status_code : Z) (response_time : float) (ip_address : string)
    (user_agent : option string) : DB unit :=
  add_api_key_usage (fun pk =>
    APIKeyUsage.mk pk endpoint method status_code response_time ip_address
                   user_agent api_key_id now);;
  mret tt.

End APIKeyService.

(* ===================================================================== *)
(** ** app/api/v1/endpoints/api_keys.py *)
(* ===================================================================== *)

(** The request body read as [APIKeyCreate]:
    [name: str = Field(..., min_length=1, max_length=100)]; the bounds
    count the characters of the label. *)
Definition parse_APIKeyCreate (name : string) : DB APIKeyCreate.t :=
  if decide (1 <= String.length name <= 100)%nat
  then mret (APIKeyCreate.mk name)
  else raise ValidationError.

Definition api_key_response (key : APIKey.t) : APIKeyResponse.t :=
  APIKeyResponse.mk (APIKey.id key) (APIKey.name key) (APIKey.key_prefix key)
    (KeyStatus_value (APIKey.status key)) (APIKey.created_at key)
    (APIKey.last_used_at key) (APIKey.revoked_at key).

Module api_keys.

(** [body] is the [name] of the request body, [current_user] the user the
    bearer token resolved to. *)
Definition create_api_key (token : string) (now : Z)
    (body : string) (current_user : User.t) : DB APIKeyCreateResponse.t :=
  key_create ← parse_APIKeyCreate body;
  '(db_key, api_key) ← APIKeyService.create_api_key token now
                         (User.id current_user) (APIKeyCreate.name key_create);
  mret (APIKeyCreateResponse.mk (api_key_response db_key) api_key).

Definition list_api_keys (current_user : User.t) : DB (list APIKeyResponse.t) :=
  keys ← APIKeyService.get_user_api_keys (User.id current_user);
  mret (api_key_response <$> keys).

Definition get_api_key_usage (fsum : list float -> float)
    (key_id : Z) (current_user : User.t) : DB APIKeyUsageStats.t :=
  stats ← APIKeyService.get_key_usage_stats fsum key_id (User.id current_user);
  match stats with
  | None => raise (HTTPException 404)
  | Some st => mret st
  end.

Definition revoke_api_key (now : Z) (key_id : Z) (current_user : User.t)
    : DB APIKeyResponse.t :=
  key ← APIKeyService.revoke_api_key now key_id (User.id current_user);
  match key with
  | None => raise (HTTPException 404)
  | Some k => mret (api_key_response k)
  end.

End api_keys.

(* ===================================================================== *)
(** ** Stores, histories and the vocabulary of the properties *)
(* ===================================================================== *)

(** An empty database; the key sequences start at 1. *)
Definition empty_store : Store := mkStore [] [] [] 1 1.

(** What a method leaves in the store, whether it returns or raises. *)
Definition store_after {A} (m : DB A) (s : Store) : Store :=
  match m s with
  | Ok (_, s') => s'
  | Raise _ => s
  end.

(** The integrity the database keeps for the primary key of [api_keys]:
    no two rows share an [id], and the sequence is ahead of every row. *)
Definition primary_keys_ok (s : Store) : Prop :=
  NoDup (APIKey.id <$> api_keys s)
  ∧ Forall (fun r => APIKey.id r < api_keys_seq s) (api_keys s).

(** [api_key] is the raw secret the row [k] was issued with. *)
Definition secret_of (api_key : string) (k : APIKey.t) : Prop :=
  APIKey.key_prefix k = str_take 8 api_key
  ∧ APIKey.key_hash k = get_api_key_hash api_key.

(** The text columns of a row, as they are persisted. *)
Definition persisted_strings (k : APIKey.t) : list string :=
  [APIKey.key_prefix k; APIKey.key_hash k; APIKey.name k;
   KeyStatus_value (APIKey.status k)].

(** The row after [status = KeyStatus.REVOKED; revoked_at = utcnow()]. *)
Definition revoked (now : Z) (r : APIKey.t) : APIKey.t :=
  APIKey.set_revoked_at (Some now) (APIKey.set_status REVOKED r).

(** Two rows that differ at most in [last_used_at]. *)
Definition same_but_last_used_at (r r' : APIKey.t) : Prop :=
  APIKey.id r' = APIKey.id r
  ∧ APIKey.key_hash r' = APIKey.key_hash r
  ∧ APIKey.key_prefix r' = APIKey.key_prefix r
  ∧ APIKey.name r' = APIKey.name r
  ∧ APIKey.status r' = APIKey.status r
  ∧ APIKey.user_id r' = APIKey.user_id r
  ∧ APIKey.expires_at r' = APIKey.expires_at r
  ∧ APIKey.created_at r' = APIKey.created_at r
  ∧ APIKey.revoked_at r' = APIKey.revoked_at r.

(** A call of a service method, with the clock and the token it draws. *)
Inductive call :=
  | CreateKey (token : string) (now user_id : Z) (name : string)
  | ListKeys (user_id : Z)
  | RevokeKey (now key_id user_id : Z)
  | VerifyKey (now : Z) (api_key : string)
  | UserByKey (now : Z) (api_key : string)
  | UsageStats (key_id user_id : Z)
  | LogUsage (now api_key_id : Z) (endpoint method : string) (status_code : Z)
             (response_time : float) (ip_address : string)
             (user_agent : option string).

Definition step (s : Store) (c : call) : Store :=
  match c with
  | CreateKey token now user_id name =>
      store_after (APIKeyService.create_api_key token now user_id name) s
  | ListKeys user_id => store_after (APIKeyService.get_user_api_keys user_id) s
  | RevokeKey now key_id user_id =>
      store_after (APIKeyService.revoke_api_key now key_id user_id) s
  | VerifyKey now api_key =>
      store_after (APIKeyService.verify_and_update_key now api_key) s
  | UserByKey now api_key =>
      store_after (APIKeyService.get_user_by_api_key now api_key) s
  | UsageStats key_id user_id =>
      store_after (APIKeyService.get_key_usage_stats sum_float key_id user_id) s
  | LogUsage now api_key_id endpoint method status_code response_time ip ua =>
      store_after (APIKeyService.log_api_key_usage now api_key_id endpoint method
                     status_code response_time ip ua) s
  end.

(** The store after a history of calls. *)
Definition run (s : Store) (calls : list call) : Store := foldl step s calls.

(** The spec's words for the average.  [total_of xs t]: [t] is the sum of
    the values [xs] in binary64, each added in turn to what was summed
    before, from 0.0 on. *)
Inductive total_of : list float -> float -> Prop :=
  | total_of_nil : total_of [] 0%float
  | total_of_snoc xs x t : total_of xs t -> total_of (xs ++ [x]) (t + x)%float.

(** What the rounded addition [t + x] lost, as binary64 recovers it from
    the larger of the two terms. *)
Definition lost_in_addition (t x : float) : float :=
  if (abs x <=? abs t)%float then ((t - (t + x)) + x)%float
  else ((x - (t + x)) + t)%float.

(** [compensated_total_of xs t e]: [t] is the sum of [xs] as above and [e]
    the sum of what its additions lost, from the second value on. *)
Inductive compensated_total_of : list float -> float -> float -> Prop :=
  | compensated_total_of_one x : compensated_total_of [x] (0 + x)%float 0%float
  | compensated_total_of_snoc xs x t e :
      compensated_total_of xs t e ->
      compensated_total_of (xs ++ [x]) (t + x)%float (e + lost_in_addition t x)%float.

(** The number of values as a binary64 number. *)
Definition count_of (xs : list float) : float :=
  PrimFloat.of_uint63 (Uint63.of_Z (Z.of_nat (length xs))).

(** [m] is the arithmetic mean of [xs] in binary64: their sum divided by
    their number. *)
Definition mean_of (xs : list float) (m : float) : Prop :=
  ∃ t, total_of xs t ∧ m = (t / count_of xs)%float.

(** The same with the sum corrected by what its additions lost, when that
    is a finite number other than zero. *)
Definition compensated_mean_of (xs : list float) (m : float) : Prop :=
  ∃ t e, compensated_total_of xs t e
         ∧ m = ((if negb (PrimFloat.is_zero e) && PrimFloat.is_finite e
                 then t + e else t) / count_of xs)%float.

(** An entry of the recent usage shows the record [log]: each of its
    fields is the field of the record. *)
Definition shows (entry : APIKeyUsageEntry.t) (log : APIKeyUsage.t) : Prop :=
  APIKeyUsageEntry.endpoint entry = APIKeyUsage.endpoint log
  ∧ APIKeyUsageEntry.method entry = APIKeyUsage.method log
  ∧ APIKeyUsageEntry.status_code entry = APIKeyUsage.status_code log
  ∧ APIKeyUsageEntry.response_time entry = APIKeyUsage.response_time log
  ∧ APIKeyUsageEntry.ip_address entry = APIKeyUsage.ip_address log
  ∧ APIKeyUsageEntry.user_agent entry = APIKeyUsage.user_agent log
  ∧ APIKeyUsageEntry.created_at entry = APIKeyUsage.created_at log.

(** The spec's words: how many records name the endpoint [e]. *)
Definition records_of_endpoint (e : string) (logs : list APIKeyUsage.t) : Z :=
  Z.of_nat (length (filter (fun l => APIKeyUsage.endpoint l = e) logs)).

(** One turn of the loop that counts the requests by endpoint. *)
Definition bump (m : gmap string Z) (log : APIKeyUsage.t) : gmap string Z :=
  <[APIKeyUsage.endpoint log := default 0 (m !! APIKeyUsage.endpoint log) + 1]> m.

(** The sum of the counts of an endpoint histogram. *)
Definition histogram_total (m : gmap string Z) : Z :=
  map_fold (fun _ v acc => v + acc) 0 m.

(** Newest first. *)
Definition newest_first (logs : list APIKeyUsage.t) : Prop :=
  StronglySorted (fun a b => APIKeyUsage.created_at b <= APIKeyUsage.created_at a) logs.

Definition entries_newest_first (entries : list APIKeyUsageEntry.t) : Prop :=
  StronglySorted (fun a b => APIKeyUsageEntry.created_at b <= APIKeyUsageEntry.created_at a)
                 entries.

(** The usage records of a credential, in row order. *)
Definition usage_of (key_id : Z) (s : Store) : list APIKeyUsage.t :=
  filter (fun l => APIKeyUsage.api_key_id l = key_id) (api_key_usage s).

(** What a call can do to the store. *)
Inductive effect (s s' : Store) : Prop :=
  | effect_none : s' = s -> effect s s'
  | effect_insert r :
      APIKey.id r = api_keys_seq s ->
      s' = mkStore (api_keys s ++ [r]) (api_key_usage s) (users s)
                   (api_keys_seq s + 1) (api_key_usage_seq s) ->
      effect s s'
  | effect_touch pk v :
      s' = with_api_keys (update_rows pk (APIKey.set_last_used_at v) (api_keys s)) s ->
      effect s s'
  | effect_revoke r now :
      r ∈ api_keys s -> APIKey.revoked_at r = None ->
      s' = with_api_keys (update_rows (APIKey.id r) (revoked now) (api_keys s)) s ->
      effect s s'
  | effect_log l :
      s' = mkStore (api_keys s) (api_key_usage s ++ [l]) (users s)
                   (api_keys_seq s) (api_key_usage_seq s + 1) ->
      effect s s'.

(** The rows [revoke_api_key] selects. *)
Definition revocable (key_id user_id : Z) (k : APIKey.t) : Prop :=
  APIKey.id k = key_id ∧ APIKey.user_id k = user_id ∧ APIKey.revoked_at k = None.

(** The credential [key_id], of prefix [p], was revoked at [t] and the
    store still says so. *)
Definition stays_revoked (key_id : Z) (p : string) (t : Z) (s : Store) : Prop :=
  Forall (fun r => APIKey.id r < api_keys_seq s) (api_keys s)
  ∧ (∃ r, r ∈ api_keys s ∧ APIKey.id r = key_id)
  ∧ Forall (fun r => APIKey.id r = key_id ->
                     APIKey.status r = REVOKED ∧ APIKey.revoked_at r = Some t
                     ∧ APIKey.key_prefix r = p) (api_keys s).

(* ===================================================================== *)
(** ** Sample stores *)
(* ===================================================================== *)

Definition owner42 : User.t := User.mk 42 "ci@example.org" "ci" "$2b$12$hash" true false.

(** The label of one character whose code point is 0. *)
Definition nul_label : string := String (ascii_of_nat 0) EmptyString.

(** Three tokens of 32 bytes; the first two start with the same 8
    characters. *)
Definition bytes_a (n : nat) : list Z := seqZ 0 (Z.of_nat n).
Definition bytes_b (n : nat) : list Z := take n (seqZ 0 6 ++ seqZ 100 250).
Definition bytes_c (n : nat) : list Z := seqZ 200 (Z.of_nat n).

Definition secret_a : string := "AAECAwQFBgcICQoLDA0ODxAREhMUFRYXGBkaGxwdHh8".
Definition secret_b : string := "AAECAwQFZGVmZ2hpamtsbW5vcHFyc3R1dnd4eXp7fH0".
Definition secret_c : string := "yMnKy8zNzs_Q0dLT1NXW19jZ2tvc3d7f4OHi4-Tl5uc".

(** A third token that starts like the first two. *)
Definition bytes_d (n : nat) : list Z := take n (seqZ 0 6 ++ seqZ 150 100).
Definition secret_d : string := "AAECAwQFlpeYmZqbnJ2en6ChoqOkpaanqKmqq6ytrq8".

(** One user and two credentials issued to them with [secret_a] and
    [secret_b]. *)
Definition shared_prefix_store : Store :=
  run (mkStore [] [] [owner42] 1 1)
      [CreateKey secret_a 10 42 "first"; CreateKey secret_b 20 42 "second"].


(** One user, one credential (number 1, issued at time 10 with [secret_a]). *)
Definition one_key_store : Store :=
  run (mkStore [] [] [owner42] 1 1) [CreateKey secret_a 10 42 "first"].

(** Two credentials of one owner, issued at times 10 and 20. *)
Definition two_key_store : Store :=
  run (mkStore [] [] [owner42] 1 1)
      [CreateKey secret_a 10 42 "first"; CreateKey secret_c 20 42 "second"].

(** The credential of [one_key_store] revoked at time 20, then two
    credentials issued with [secret_b] and [secret_d]. *)
Definition revoked_key_store : Store :=
  run one_key_store
      [RevokeKey 20 1 42; CreateKey secret_b 30 42 "second";
       CreateKey secret_d 40 42 "third"].

(** The credential of [one_key_store], verified once, then five gated
    requests with the status codes 200, 200, 404, 500, 200. *)
Definition five_log_store : Store :=
  run one_key_store
      [VerifyKey 11 secret_a;
       LogUsage 12 1 "/summarize" "POST" 200 0.5%float "10.0.0.1" (Some "curl/8.0");
       LogUsage 13 1 "/summarize" "POST" 200 0.25%float "10.0.0.1" (Some "curl/8.0");
       LogUsage 14 1 "/paraphrase" "POST" 404 0.125%float "10.0.0.1" None;
       LogUsage 15 1 "/image" "POST" 500 1.5%float "10.0.0.2" None;
       LogUsage 16 1 "/summarize" "POST" 200 0.125%float "10.0.0.1" (Some "curl/8.0")].

(** The end-to-end scenario of the spec: one verified credential and one
    recorded request (0x1.ae147ae147ae1p-2 is the binary64 value of 0.42). *)
Definition scenario_store : Store :=
  run (mkStore [] [] [owner42] 1 1)
      [CreateKey secret_a 10 42 "ci-bot";
       VerifyKey 11 secret_a;
       LogUsage 12 1 "/summarize" "POST" 200 0x1.ae147ae147ae1p-2%float
                "10.0.0.1" (Some "curl/8.0")].

(* ===================================================================== *)
(** ** Vocabulary of the further properties *)
(* ===================================================================== *)

(** What identifies a credential: every column but [status],
    [last_used_at] and [revoked_at]. *)
Definition identity_of (k : APIKey.t)
    : Z * string * string * string * Z * Z * option Z :=
  (APIKey.id k, APIKey.key_prefix k, APIKey.key_hash k, APIKey.name k,
   APIKey.user_id k, APIKey.created_at k, APIKey.expires_at k).

(** A row is either active and never revoked, or revoked at some time. *)
Definition coherent (k : APIKey.t) : Prop :=
  (APIKey.status k = ACTIVE ∧ APIKey.revoked_at k = None)
  ∨ (APIKey.status k = REVOKED ∧ is_Some (APIKey.revoked_at k)).

(** The calls that write a usage record. *)
Definition is_log (c : call) : bool :=
  match c with
  | LogUsage _ _ _ _ _ _ _ _ => true
  | _ => false
  end.

(** The calls that write a usage record for the credential [key_id]. *)
Definition logs_for (key_id : Z) (c : call) : Prop :=
  match c with
  | LogUsage _ api_key_id _ _ _ _ _ _ => api_key_id = key_id
  | _ => False
  end.

(** The statistics [get_key_usage_stats] computes from the usage records
    of a credential. *)
Definition stats_of (fsum : list float -> float) (usage_logs : list APIKeyUsage.t)
    : APIKeyUsageStats.t :=
  match usage_logs with
  | [] => APIKeyUsageStats.mk 0 0 0 0%float ∅ []
  | _ =>
      let total_requests := Z.of_nat (length usage_logs) in
      let successful_requests :=
        sum_int ((fun _ => 1) <$>
                 filter (fun l => APIKeyUsage.status_code l < 400) usage_logs) in
      APIKeyUsageStats.mk
        total_requests successful_requests (total_requests - successful_requests)
        (fsum (APIKeyUsage.response_time <$> usage_logs)
         / float_of_int total_requests)%float
        (APIKeyService.count_by_endpoint usage_logs)
        (APIKeyService.usage_entry <$>
         take 10 (sorted_reverse APIKeyUsage.created_at usage_logs))
  end.

(** The rows [get_key_usage_stats] looks for. *)
Definition owned (key_id user_id : Z) (k : APIKey.t) : Prop :=
  APIKey.id k = key_id ∧ APIKey.user_id k = user_id.

(* ===================================================================== *)
(** ** app/api/v1/endpoints/ai_tools: the gated routes *)
(* ===================================================================== *)

(** A route handler or a dependency: its answer, a value or the exception
    it raises, and the store it leaves committed.  Unlike a service
    method, a handler can have committed before it raises. *)
Definition Handler (A : Type) : Type := Store -> outcome A * Store.

(** A service method called from a handler; a method that raises has
    committed nothing. *)
Definition call_db {A} (m : DB A) : Handler A := fun s =>
  match m s with
  | Ok (a, s') => (Ok a, s')
  | Raise e => (Raise e, s)
  end.

(** [Depends(dep)]: the dependency runs first, the handler runs on what it
    returned; an exception of the dependency is the answer. *)
Definition depends {A B} (dep : Handler A) (handler : A -> Handler B) : Handler B :=
  fun s =>
  match dep s with
  | (Ok a, s1) => handler a s1
  | (Raise e, s1) => (Raise e, s1)
  end.

(** ai_tools/utils.py *)
Module utils.

Definition get_current_user_by_api_key (now : Z) (api_key : string)
    : Handler (User.t * Z) := fun s =>
  match call_db (APIKeyService.verify_and_update_key now api_key) s with
  | (Raise e, s1) => (Raise e, s1)
  | (Ok None, s1) => (Raise (HTTPException 401), s1)
  | (Ok (Some key), s1) =>
      match call_db (scalar_one_or_none
                       (filter (fun u => User.id u = APIKey.user_id key) (users s1))) s1
      with
      | (Raise e, s2) => (Raise e, s2)
      | (Ok None, s2) => (Raise (HTTPException 401), s2)
      | (Ok (Some user), s2) => (Ok (user, APIKey.id key), s2)
      end
  end.

Definition log_api_usage (now : Z) (api_key_id : Z) (endpoint method : string)
    (status_code : Z) (response_time : float) (ip_address : string)
    (user_agent : option string) : Handler unit :=
  call_db (APIKeyService.log_api_key_usage now api_key_id endpoint method
             status_code response_time ip_address user_agent).

End utils.

(** How the body of a handler's [try] statement ends.  The call of the
    external completion service and the construction of the response from
    its result are not embedded: their outcome is an input.  [Cancelled]
    is the end by [asyncio.CancelledError] at an [await] of the body: no
    [except] clause of the handlers catches it. *)
Inductive attempt (R : Type) :=
  | Returned (response : R)
  | ServiceException
  | OtherException
  | Cancelled.
Arguments Returned {R} response.
Arguments ServiceException {R}.
Arguments OtherException {R}.
Arguments Cancelled {R}.

(** app/core/rate_limit.py with main.py.  [@limiter.limit(...)] wraps the
    function of a route: when the window of the client is full the wrapper
    raises [RateLimitExceeded], an [HTTPException] of status 429 that
    [rate_limit_exceeded_handler] answers, and the function is not called.
    The limiter counts in memory, outside the database: whether the window
    is full is an input, [exceeded]; [too_many] is the answer 429. *)
Module limiter.

Definition limit {R} (too_many : R) (exceeded : bool)
    (endpoint : Store -> R * Store) : Store -> R * Store := fun s =>
  if exceeded then (too_many, s) else endpoint s.

End limiter.

Module SummarizeResponse.
Record t := mk { summary : string; keywords : option (list string) }.
End SummarizeResponse.

Module ParaphraseResponse.
Record t := mk { paraphrased_text : string }.
End ParaphraseResponse.

(** ai_tools/text_summarizer.py.  [summarize_text] is the function under
    the decorators; [start_time] and [end_time] are the two readings of
    [time()], [client_host] is [request.client.host], [user_agent] the
    header, [body_run] the end of the [try] body ([ServiceException] is
    [TextSummarizerException]). *)
Module text_summarizer.

Definition summarize_text (start_time end_time : float) (now : Z)
    (client_host : string) (user_agent : option string)
    (body_run : attempt SummarizeResponse.t) (auth_data : User.t * Z)
    : Handler SummarizeResponse.t := fun s =>
  let '(current_user, api_key_id) := auth_data in
  let status_code :=
    match body_run with
    | Returned _ => 200
    | ServiceException => 422
    | OtherException => 500
    | Cancelled => 200
    end in
  (* finally *)
  let response_time := (end_time - start_time)%float in
  let '(_, s1) := utils.log_api_usage now api_key_id "/summarize" "POST" status_code
                    response_time client_host user_agent s in
  match body_run with
  | Returned response => (Ok response, s1)
  | ServiceException => (Raise (HTTPException 422), s1)
  | OtherException => (Raise (HTTPException 500), s1)
  | Cancelled => (Raise CancelledError, s1)
  end.


End text_summarizer.

(** ai_tools/text_paraphraser.py ([ServiceException] is
    [TextParaphraserException]). *)
Module text_paraphraser.

Definition paraphrase_text (start_time end_time : float) (now : Z)
    (client_host : string) (user_agent : option string)
    (body_run : attempt ParaphraseResponse.t) (auth_data : User.t * Z)
    : Handler ParaphraseResponse.t := fun s =>
  let '(current_user, api_key_id) := auth_data in
  let status_code :=
    match body_run with
    | Returned _ => 200
    | ServiceException => 422
    | OtherException => 500
    | Cancelled => 200
    end in
  (* finally *)
  let response_time := (end_time - start_time)%float in
  let '(_, s1) := utils.log_api_usage now api_key_id "/paraphrase" "POST" status_code
                    response_time client_host user_agent s in
  match body_run with
  | Returned response => (Ok response, s1)
  | ServiceException => (Raise (HTTPException 422), s1)
  | OtherException => (Raise (HTTPException 500), s1)
  | Cancelled => (Raise CancelledError, s1)
  end.

End text_paraphraser.

(* ===================================================================== *)
(** ** ai_tools/image_to_text.py *)
(* ===================================================================== *)

Inductive ImageAnalysisMode := DESCRIPTION | OCR | DETAILED.
Inductive DetailLevel := BRIEF | STANDARD | COMPREHENSIVE.

(** What [json.loads] builds; the members of an object in document order. *)
#[local] Unset Elimination Schemes.
Inductive json :=
  | JNull
  | JBool (b : bool)
  | JInt (n : Z)
  | JFloat (x : float)
  | JString (s : string)
  | JArray (items : list json)
  | JObject (members : list (string * json)).
#[local] Set Elimination Schemes.

(** [bool(v)] *)
Definition truthy (v : json) : bool :=
  match v with
  | JNull => false
  | JBool b => b
  | JInt n => negb (n =? 0)
  | JFloat x => negb (PrimFloat.eqb x 0%float)
  | JString s => negb (String.eqb s "")
  | JArray items => match items with [] => false | _ => true end
  | JObject members => match members with [] => false | _ => true end
  end.

(** [body.get(key)] on a parsed object: of two members of one name the
    later one is kept. *)
Fixpoint dict_get (key : string) (members : list (string * json)) : option json :=
  match members with
  | [] => None
  | (k, v) :: rest =>
      match dict_get key rest with
      | Some v' => Some v'
      | None => if String.eqb k key then Some v else None
      end
  end.

(** [ImageAnalysisMode(v)] and [DetailLevel(v)]: the member of that value,
    [None] for the [ValueError]. *)
Definition ImageAnalysisMode_of (v : json) : option ImageAnalysisMode :=
  match v with
  | JString s =>
      if String.eqb s "description" then Some DESCRIPTION
      else if String.eqb s "ocr" then Some OCR
      else if String.eqb s "detailed" then Some DETAILED
      else None
  | _ => None
  end.

Definition DetailLevel_of (v : json) : option DetailLevel :=
  match v with
  | JString s =>
      if String.eqb s "brief" then Some BRIEF
      else if String.eqb s "standard" then Some STANDARD
      else if String.eqb s "comprehensive" then Some COMPREHENSIVE
      else None
  | _ => None
  end.

(** A Python value that is [None] or a string, as a [json] value. *)
Definition of_optional_str (v : option string) : json :=
  match v with
  | None => JNull
  | Some s => JString s
  end.

(** [needle in hay] on strings. *)
Fixpoint str_contains (needle hay : string) : bool :=
  String.prefix needle hay
  || match hay with
     | EmptyString => false
     | String _ hay' => str_contains needle hay'
     end.

Module UploadFile.
Record t := mk {
  content_type : option string;
  content : list Z }.
End UploadFile.

(** What the handler reads of the request: the content-type header, what
    [request.json()] gives ([None] when it raises), the form fields as
    FastAPI passes them, the client address and the user-agent header. *)
Module ImageRequest.
Record t := mk {
  content_type : option string;
  json_body : option json;
  image_url : option string;
  image_file : option UploadFile.t;
  mode : option string;
  detail_level : option string;
  client_host : string;
  user_agent : option string }.
End ImageRequest.

Module ImageToTextResponse.
Record t := mk { analysis : string; structured_text : option json }.
End ImageToTextResponse.

(** How the work of the [try] block ends once the handler's own checks
    have passed: the temporary file, the call of the analyzer and the
    construction of the response are not embedded.
    [RaisedCancelledError] is the end by [asyncio.CancelledError] at an
    [await] of the block, which no [except] clause catches. *)
Inductive analysis_run :=
  | Analysed (response : ImageToTextResponse.t)
  | RaisedImageToTextException
  | RaisedTimeoutError
  | RaisedException
  | RaisedCancelledError.

(** The answer of the handler: a response, the [JSONResponse] it returns
    itself, the [HTTPException] it raises, or another exception that
    leaves it uncaught. *)
Inductive image_answer :=
  | Analysis (response : ImageToTextResponse.t)
  | JSONResponse (status_code : Z)
  | RaisesHTTP (status_code : Z)
  | RaisesUncaught.

Module image_to_text.

Definition MAX_FILE_SIZE : Z := 4 * 1024 * 1024.

Definition ALLOWED_MIME_TYPES : list string :=
  ["image/jpeg"; "image/png"; "image/gif"; "image/webp"].

(** The part of the handler before its [try] block: an answer, or the
    image source and the two enumeration members. *)
Definition read_request (request : ImageRequest.t)
    : image_answer + (json * option UploadFile.t * ImageAnalysisMode * DetailLevel) :=
  let content_type := default "" (ImageRequest.content_type request) in
  if str_contains "application/json" content_type then
    match ImageRequest.json_body request with
    | None => inl RaisesUncaught
    | Some (JObject members) =>
        let image_url := default JNull (dict_get "image_url" members) in
        if negb (truthy image_url) then inl (RaisesHTTP 422)
        else
          let mode_str := default (JString "description") (dict_get "mode" members) in
          let detail_level_str :=
            default (JString "standard") (dict_get "detail_level" members) in
          match ImageAnalysisMode_of mode_str, DetailLevel_of detail_level_str with
          | Some mode_enum, Some detail_level_enum =>
              inr (image_url, None, mode_enum, detail_level_enum)
          | _, _ => inl (RaisesHTTP 422)
          end
    | Some _ => inl RaisesUncaught
    end
  else
    match ImageAnalysisMode_of (of_optional_str (ImageRequest.mode request)),
          DetailLevel_of (of_optional_str (ImageRequest.detail_level request)) with
    | Some mode_enum, Some detail_level_enum =>
        inr (of_optional_str (ImageRequest.image_url request),
             ImageRequest.image_file request, mode_enum, detail_level_enum)
    | _, _ => inl (RaisesHTTP 422)
    end.

(** The [try] block with its [except] clauses: the status code and the
    answer.  An [HTTPException] raised inside the block is an [Exception]
    and is caught by the last clause; [CancelledError] passes all the
    clauses with [status_code] still 200. *)
Definition try_block (image_url : json) (image_file : option UploadFile.t)
    (run : analysis_run) : Z * image_answer :=
  let body : analysis_run :=
    if truthy image_url then run
    else
      match image_file with
      | None => RaisedException
      | Some f =>
          if bool_decide (UploadFile.content_type f ∈ Some <$> ALLOWED_MIME_TYPES)
          then
            if MAX_FILE_SIZE <? Z.of_nat (length (UploadFile.content f))
            then RaisedException
            else run
          else RaisedException
      end in
  match body with
  | Analysed response => (200, Analysis response)
  | RaisedImageToTextException => (422, RaisesHTTP 422)
  | RaisedTimeoutError => (504, RaisesHTTP 504)
  | RaisedException => (500, RaisesHTTP 500)
  | RaisedCancelledError => (200, RaisesUncaught)
  end.

Definition image_to_text (start_time end_time : float) (now : Z)
    (request : ImageRequest.t) (run : analysis_run) (auth_data : User.t * Z)
    : Store -> image_answer * Store := fun s =>
  let '(current_user, api_key_id) := auth_data in
  match read_request request with
  | inl answer => (answer, s)
  | inr (image_url, image_file, mode_enum, detail_level_enum) =>
      let no_url := match image_url with JNull => true | _ => false end in
      let no_file := match image_file with None => true | Some _ => false end in
      if (no_url && no_file) || (negb no_url && negb no_file)
      then (JSONResponse 400, s)
      else
        let '(status_code, answer) := try_block image_url image_file run in
        (* finally *)
        let response_time := (end_time - start_time)%float in
        let '(_, s1) := utils.log_api_usage now api_key_id "/image-to-text" "POST"
                          status_code response_time (ImageRequest.client_host request)
                          (ImageRequest.user_agent request) s in
        (answer, s1)
  end.

End image_to_text.

(* ===================================================================== *)
(** ** Vocabulary for tokens and digests *)
(* ===================================================================== *)

(** A byte. *)
Definition is_byte (b : Z) : Prop := 0 <= b < 256.

(** The characters of the URL-safe alphabet: letters, digits, [-] and [_]. *)
Definition url_safe (c : ascii) : bool :=
  let n := Z.of_N (N_of_ascii c) in
  ((65 <=? n) && (n <=? 90)) || ((97 <=? n) && (n <=? 122))
  || ((48 <=? n) && (n <=? 57)) || (n =? 45) || (n =? 95).

(** The lower-case hexadecimal digits. *)
Definition hex_lower (c : ascii) : bool :=
  let n := Z.of_N (N_of_ascii c) in
  ((48 <=? n) && (n <=? 57)) || ((97 <=? n) && (n <=? 102)).

Fixpoint str_forall (p : ascii -> bool) (s : string) : bool :=
  match s with
  | EmptyString => true
  | String c s' => p c && str_forall p s'
  end.

(** The place of a character in the alphabet of [b64_char], and the bytes
    a token stands for: the inverse of [token_urlsafe], used to show that
    tokens determine their bytes. *)
Definition b64_index (c : ascii) : Z :=
  let n := Z.of_N (N_of_ascii c) in
  if (65 <=? n) && (n <=? 90) then n - 65
  else if (97 <=? n) && (n <=? 122) then n - 97 + 26
  else if (48 <=? n) && (n <=? 57) then n - 48 + 52
  else if n =? 45 then 62 else 63.

Fixpoint token_bytes_of (s : string) : list Z :=
  match s with
  | String c1 (String c2 (String c3 (String c4 rest))) =>
      let i1 := b64_index c1 in let i2 := b64_index c2 in
      let i3 := b64_index c3 in let i4 := b64_index c4 in
      Z.lor (Z.shiftl i1 2) (Z.shiftr i2 4)
      :: Z.lor (Z.shiftl (Z.land i2 15) 4) (Z.shiftr i3 2)
      :: Z.lor (Z.shiftl (Z.land i3 3) 6) i4
      :: token_bytes_of rest
  | String c1 (String c2 (String c3 EmptyString)) =>
      let i1 := b64_index c1 in let i2 := b64_index c2 in
      let i3 := b64_index c3 in
      [Z.lor (Z.shiftl i1 2) (Z.shiftr i2 4);
       Z.lor (Z.shiftl (Z.land i2 15) 4) (Z.shiftr i3 2)]
  | String c1 (String c2 EmptyString) =>
      [Z.lor (Z.shiftl (b64_index c1) 2) (Z.shiftr (b64_index c2) 4)]
  | _ => []
  end.

(** The middle sextets of a group of bytes, as [token_urlsafe] forms them. *)
Definition sextet2 (a b : Z) : Z := Z.lor (Z.shiftl (Z.land a 3) 4) (Z.shiftr b 4).
Definition sextet3 (b c : Z) : Z := Z.lor (Z.shiftl (Z.land b 15) 2) (Z.shiftr c 6).

(* ===================================================================== *)
(** * Properties *)
(* ===================================================================== *)

Arguments get_api_key_hash : simpl never.
Arguments verify_api_key : simpl never.

(** ** The hash on the standard test vectors *)

Example sha256_abc :
  get_api_key_hash "abc"
  = "ba7816bf8f01cfea414140de5dae2223b00361a396177a9cb410ff61f20015ad".
Proof. vm_compute. reflexivity. Qed.

Example sha256_empty :
  get_api_key_hash ""
  = "e3b0c44298fc1c149afbf4c8996fb92427ae41e4649b934ca495991b7852b855".
Proof. vm_compute. reflexivity. Qed.

Example sha256_two_blocks :
  get_api_key_hash "abcdbcdecdefdefgefghfghighijhijkijkljklmklmnlmnomnopnopq"
  = "248d6a61d20638b8e5c026930c3e6039a33ce45964ff2167f6ecedd419db06c1".
Proof. vm_compute. reflexivity. Qed.

Example sha256_utf8 :
  get_api_key_hash (String (ascii_of_nat 233) EmptyString)
  = "4a99557e4033c3539de2eb65472017cad5f9557f7a0625a09f1c3f6e2ba69c4c".
Proof. vm_compute. reflexivity. Qed.

(** ** Token generation *)

Example generate_api_key_samples :
  generate_api_key bytes_a = secret_a
  ∧ generate_api_key bytes_b = secret_b
  ∧ generate_api_key bytes_c = secret_c.
Proof. repeat split; vm_compute; reflexivity. Qed.

Example token_urlsafe_padding : token_urlsafe [251; 255; 191; 1] = "-_-_AQ".
Proof. vm_compute. reflexivity. Qed.

(** A token of 32 random bytes has 43 characters. *)
Lemma generate_api_key_length (token_bytes : nat -> list Z) :
  length (token_bytes 32%nat) = 32%nat ->
  String.length (generate_api_key token_bytes) = 43%nat.
Proof.
  unfold generate_api_key. generalize (token_bytes 32%nat) as l. intros l Hl.
  do 32 (destruct l as [|? l]; [discriminate Hl|]).
  destruct l; [|discriminate Hl]. reflexivity.
Qed.

Lemma str_take_length n s : (String.length (str_take n s) <= n)%nat.
Proof.
  revert s. induction n as [|n IH]; intros [|c s]; cbn; try lia.
  apply le_n_S, IH.
Qed.

Arguments str_take : simpl never.

(** The digest is printed on 64 characters. *)
Lemma get_api_key_hash_length api_key :
  String.length (get_api_key_hash api_key) = 64%nat.
Proof. reflexivity. Qed.

(** ** Lists and queries *)

Lemma filter_none {A} (P : A -> Prop) `{!∀ x, Decision (P x)} (l : list A) :
  (∀ x, x ∈ l -> ¬ P x) -> filter P l = [].
Proof.
  induction l as [|a l IH]; intros Hall; [reflexivity|].
  rewrite filter_cons_False by (apply Hall; left).
  apply IH. intros x Hx. apply Hall. by right.
Qed.

Lemma verify_api_key_hash api_key : verify_api_key api_key (get_api_key_hash api_key) = true.
Proof. unfold verify_api_key. apply String.eqb_refl. Qed.

Lemma verify_api_key_true api_key stored :
  verify_api_key api_key stored = true <-> stored = get_api_key_hash api_key.
Proof.
  unfold verify_api_key. rewrite String.eqb_eq. split; congruence.
Qed.

(** ** The methods, one equation each *)

(** Running a method: unfold the monad and the session primitives. *)
Ltac db_run :=
  unfold mbind, DB_bind, mret, DB_ret, get_store, put_store, raise,
         add_api_key, add_api_key_usage, update_api_key;
  cbn beta iota delta [api_keys api_key_usage users api_keys_seq api_key_usage_seq].

Lemma create_api_key_run token now user_id name s :
  APIKeyService.create_api_key token now user_id name s
  = let k := APIKey.mk (api_keys_seq s) (str_take 8 token) (get_api_key_hash token)
                       name ACTIVE None None None user_id now in
    Ok ((k, token),
        mkStore (api_keys s ++ [k]) (api_key_usage s) (users s)
                (api_keys_seq s + 1) (api_key_usage_seq s)).
Proof. reflexivity. Qed.

Lemma get_user_api_keys_run user_id s :
  APIKeyService.get_user_api_keys user_id s
  = Ok (filter (fun k => APIKey.user_id k = user_id ∧ APIKey.revoked_at k = None)
               (api_keys s), s).
Proof. reflexivity. Qed.

Lemma revoke_api_key_run now key_id user_id s :
  APIKeyService.revoke_api_key now key_id user_id s
  = match filter (fun k => APIKey.id k = key_id ∧ APIKey.user_id k = user_id
                           ∧ APIKey.revoked_at k = None) (api_keys s) with
    | [] => Ok (None, s)
    | [k] => Ok (Some (revoked now k),
                 with_api_keys (update_rows (APIKey.id k) (revoked now) (api_keys s)) s)
    | _ => Raise MultipleResultsFound
    end.
Proof.
  unfold APIKeyService.revoke_api_key. db_run.
  destruct (filter _ _) as [|k [|k' l]]; reflexivity.
Qed.

Lemma verify_and_update_key_run now api_key s :
  APIKeyService.verify_and_update_key now api_key s
  = match filter (fun k => APIKey.key_prefix k = str_take 8 api_key
                           ∧ APIKey.status k = ACTIVE) (api_keys s) with
    | [] => Ok (None, s)
    | [k] =>
        if verify_api_key api_key (APIKey.key_hash k)
        then Ok (Some (APIKey.set_last_used_at (Some now) k),
                 with_api_keys (update_rows (APIKey.id k)
                                  (APIKey.set_last_used_at (Some now)) (api_keys s)) s)
        else Ok (None, s)
    | _ => Raise MultipleResultsFound
    end.
Proof.
  unfold APIKeyService.verify_and_update_key. db_run.
  destruct (filter _ _) as [|k [|k' l]]; try reflexivity.
  unfold scalar_one_or_none. db_run.
  destruct (verify_api_key _ _); reflexivity.
Qed.

Lemma get_user_by_api_key_store now api_key s :
  store_after (APIKeyService.get_user_by_api_key now api_key) s = s
  ∨ ∃ pk, store_after (APIKeyService.get_user_by_api_key now api_key) s
          = with_api_keys (update_rows pk (APIKey.set_last_used_at (Some now))
                             (api_keys s)) s.
Proof.
  unfold store_after, APIKeyService.get_user_by_api_key. db_run.
  destruct (filter _ (api_keys s)) as [|k [|k' l]]; try (by left).
  unfold scalar_one_or_none. db_run.
  destruct (filter _ (users s)) as [|u [|u' l]]; eauto.
Qed.

Lemma get_key_usage_stats_store fsum key_id user_id s :
  store_after (APIKeyService.get_key_usage_stats fsum key_id user_id) s = s.
Proof.
  unfold store_after, APIKeyService.get_key_usage_stats. db_run.
  destruct (filter _ (api_keys s)) as [|k [|k' l]]; try reflexivity.
  unfold scalar_one_or_none. db_run.
  destruct (filter _ (api_key_usage s)); reflexivity.
Qed.

Lemma gate_run now api_key s :
  utils.get_current_user_by_api_key now api_key s
  = match filter (fun k => APIKey.key_prefix k = str_take 8 api_key
                           ∧ APIKey.status k = ACTIVE) (api_keys s) with
    | [] => (Raise (HTTPException 401), s)
    | [k] =>
        if verify_api_key api_key (APIKey.key_hash k) then
          let s1 := with_api_keys (update_rows (APIKey.id k)
                                     (APIKey.set_last_used_at (Some now)) (api_keys s)) s in
          match filter (fun u => User.id u = APIKey.user_id k) (users s) with
          | [] => (Raise (HTTPException 401), s1)
          | [u] => (Ok (u, APIKey.id k), s1)
          | _ => (Raise MultipleResultsFound, s1)
          end
        else (Raise (HTTPException 401), s)
    | _ => (Raise MultipleResultsFound, s)
    end.
Proof.
  unfold utils.get_current_user_by_api_key, call_db.
  rewrite verify_and_update_key_run.
  destruct (filter _ (api_keys s)) as [|k [|k' l]]; try reflexivity.
  destruct (verify_api_key _ _); [|reflexivity].
  cbn [users with_api_keys APIKey.user_id APIKey.set_last_used_at APIKey.id].
  destruct (filter _ (users s)) as [|u [|u' l]]; reflexivity.
Qed.

(** ** What a call can do to the store *)

Lemma filter_singleton_elem {A} (P : A -> Prop) `{!∀ x, Decision (P x)}
    (l : list A) (x : A) :
  filter P l = [x] -> x ∈ l ∧ P x.
Proof.
  intros E. assert (Hx : x ∈ filter P l) by (rewrite E; left).
  apply list_elem_of_filter in Hx. tauto.
Qed.

Lemma step_effect s c : effect s (step s c).
Proof.
  destruct c; unfold step.
  - eapply effect_insert; [|reflexivity]. reflexivity.
  - by apply effect_none.
  - unfold store_after. rewrite revoke_api_key_run.
    destruct (filter _ _) as [|k [|k' l]] eqn:E; try (by apply effect_none).
    apply filter_singleton_elem in E as [Hk (_ & _ & Hr)].
    by eapply effect_revoke.
  - unfold store_after. rewrite verify_and_update_key_run.
    destruct (filter _ _) as [|k [|k' l]]; try (by apply effect_none).
    destruct (verify_api_key _ _); [|by apply effect_none].
    by eapply effect_touch.
  - destruct (get_user_by_api_key_store now api_key s) as [-> | [pk ->]].
    + by apply effect_none.
    + by eapply effect_touch.
  - rewrite get_key_usage_stats_store. by apply effect_none.
  - by eapply effect_log.
Qed.

(** The primary key stays sound along every history. *)
Lemma update_rows_ids pk f rows :
  (∀ r, APIKey.id (f r) = APIKey.id r) ->
  APIKey.id <$> update_rows pk f rows = APIKey.id <$> rows.
Proof.
  intros Hf. unfold update_rows. induction rows as [|r rows IH]; [reflexivity|].
  cbn. rewrite IH. f_equal. by destruct (decide _).
Qed.

Lemma Forall_update_rows (P : APIKey.t -> Prop) pk f rows :
  (∀ r, P r -> P (f r)) -> Forall P rows -> Forall P (update_rows pk f rows).
Proof.
  intros Hf Hall. unfold update_rows. apply Forall_map.
  eapply Forall_impl; [exact Hall|]. intros r Hr. cbn.
  destruct (decide _); auto.
Qed.

Lemma effect_primary_keys_ok s s' :
  effect s s' -> primary_keys_ok s -> primary_keys_ok s'.
Proof.
  intros [-> | r Hid -> | pk v -> | r now Hr Hnone -> | l ->] [Hnd Hlt];
    unfold primary_keys_ok; cbn [api_keys api_keys_seq with_api_keys].
  - done.
  - split.
    + rewrite fmap_app. apply NoDup_app. split; [done|]. split; [|apply NoDup_singleton].
      intros x Hx. cbn. rewrite list_elem_of_singleton. intros ->.
      apply list_elem_of_fmap in Hx as (r' & Hx & Hr').
      rewrite Forall_forall in Hlt. specialize (Hlt r' Hr'). lia.
    + apply Forall_app. split.
      * eapply Forall_impl; [exact Hlt|]. cbn. intros; lia.
      * apply Forall_singleton. lia.
  - split; [by rewrite update_rows_ids|by apply Forall_update_rows].
  - split; [by rewrite update_rows_ids|by apply Forall_update_rows].
  - done.
Qed.

Lemma run_primary_keys_ok calls s :
  primary_keys_ok s -> primary_keys_ok (run s calls).
Proof.
  revert s. induction calls as [|c calls IH]; intros s Hs; [exact Hs|].
  cbn. apply IH. eapply effect_primary_keys_ok; [apply step_effect|exact Hs].
Qed.

(** ** Two active credentials that share a prefix *)

(** The prefix lookup of [verify_and_update_key] raises as soon as two
    active rows carry the prefix of the presented key. *)
Lemma verify_raises_on_shared_prefix (s : Store) (now : Z) (api_key : string)
    (i j : nat) (k1 k2 : APIKey.t) :
  (i < j)%nat -> api_keys s !! i = Some k1 -> api_keys s !! j = Some k2 ->
  APIKey.key_prefix k1 = str_take 8 api_key -> APIKey.status k1 = ACTIVE ->
  APIKey.key_prefix k2 = str_take 8 api_key -> APIKey.status k2 = ACTIVE ->
  APIKeyService.verify_and_update_key now api_key s = Raise MultipleResultsFound.
Proof.
  intros Hij H1 H2 Hp1 Ha1 Hp2 Ha2.
  unfold APIKeyService.verify_and_update_key. db_run.
  pose proof (take_drop_middle _ _ _ H1) as E1.
  assert (Hj : drop (S i) (api_keys s) !! (j - S i)%nat = Some k2).
  { rewrite lookup_drop. rewrite <- H2. f_equal. lia. }
  pose proof (take_drop_middle _ _ _ Hj) as E2.
  rewrite <- E1, <- E2.
  rewrite filter_app, filter_cons_True, filter_app, filter_cons_True by done.
  destruct (filter _ (take i (api_keys s))) as [|a [|b l]]; cbn;
    try reflexivity.
  destruct (filter _ (take (j - S i) _)) as [|a [|b l]]; reflexivity.
Qed.

(** C2 (the code at the failing input). Two tokens of 32 random bytes
    that share their first 8 characters, issued to one owner: both
    credentials are active, each with the digest of its own secret, and
    [verify_and_update_key] raises [MultipleResultsFound] for either
    secret, so that it resolves neither; [get_user_by_api_key], which
    matches the fingerprint in the query itself, resolves both. *)
Theorem verify_shared_prefix_fails :
  generate_api_key bytes_a = secret_a ∧ generate_api_key bytes_b = secret_b
  ∧ str_take 8 secret_a = str_take 8 secret_b
  ∧ (∃ k1 k2, api_keys shared_prefix_store = [k1; k2]
              ∧ APIKey.id k1 = 1 ∧ APIKey.id k2 = 2
              ∧ APIKey.status k1 = ACTIVE ∧ APIKey.status k2 = ACTIVE
              ∧ secret_of secret_a k1 ∧ secret_of secret_b k2
              ∧ APIKey.key_hash k1 ≠ APIKey.key_hash k2)
  ∧ APIKeyService.verify_and_update_key 30 secret_a shared_prefix_store
    = Raise MultipleResultsFound
  ∧ APIKeyService.verify_and_update_key 30 secret_b shared_prefix_store
    = Raise MultipleResultsFound
  ∧ (∃ s', APIKeyService.get_user_by_api_key 30 secret_a shared_prefix_store
           = Ok (Some owner42, s'))
  ∧ (∃ s', APIKeyService.get_user_by_api_key 30 secret_b shared_prefix_store
           = Ok (Some owner42, s')).
Proof.
  split; [vm_compute; reflexivity|]. split; [vm_compute; reflexivity|].
  split; [reflexivity|]. split.
  { eexists _, _. split; [reflexivity|].
    do 4 (split; [reflexivity|]).
    split; [by split|]. split; [by split|]. vm_compute. discriminate. }
  split; [vm_compute; reflexivity|].
  split; [vm_compute; reflexivity|].
  split; eexists; vm_compute; reflexivity.
Qed.

(** ** Revocation is final *)

Lemma NoDup_fmap_eq {A B} (f : A -> B) (l : list A) (x y : A) :
  NoDup (f <$> l) -> x ∈ l -> y ∈ l -> f x = f y -> x = y.
Proof.
  induction l as [|a l IH]; intros Hnd Hx Hy Hf; [by apply elem_of_nil in Hx|].
  cbn in Hnd. apply NoDup_cons in Hnd as [Ha Hnd].
  apply elem_of_cons in Hx as [-> | Hx]; apply elem_of_cons in Hy as [-> | Hy];
    [done| | |by apply IH].
  - exfalso. apply Ha. rewrite Hf. by apply list_elem_of_fmap_2.
  - exfalso. apply Ha. rewrite <- Hf. by apply list_elem_of_fmap_2.
Qed.

Lemma elem_of_update_rows pk f rows r :
  r ∈ rows -> (if decide (APIKey.id r = pk) then f r else r) ∈ update_rows pk f rows.
Proof.
  intros Hr. unfold update_rows. apply list_elem_of_fmap. by exists r.
Qed.

Lemma Forall_update_rows_at (P : APIKey.t -> Prop) pk f rows :
  (∀ r, r ∈ rows -> APIKey.id r = pk -> P r -> P (f r)) ->
  Forall P rows -> Forall P (update_rows pk f rows).
Proof.
  intros Hf Hall. unfold update_rows. apply Forall_map.
  rewrite Forall_forall in Hall. apply Forall_forall. intros r Hr. cbn.
  destruct (decide _); auto.
Qed.

Lemma effect_stays_revoked key_id p t s s' :
  effect s s' -> stays_revoked key_id p t s -> stays_revoked key_id p t s'.
Proof.
  intros [-> | r Hid -> | pk v -> | r now Hr Hnone -> | l ->] (Hlt & (r0 & Hr0 & Hk0) & Hall);
    unfold stays_revoked; cbn [api_keys api_keys_seq with_api_keys].
  - split; [done|]. split; [by exists r0|done].
  - split; [|split].
    + apply Forall_app. split.
      * eapply Forall_impl; [exact Hlt|]. cbn. intros; lia.
      * apply Forall_singleton. lia.
    + exists r0. split; [|done]. apply elem_of_app. by left.
    + apply Forall_app. split; [done|]. apply Forall_singleton. intros Hk.
      rewrite Forall_forall in Hlt. specialize (Hlt r0 Hr0). lia.
  - split; [|split].
    + by apply Forall_update_rows.
    + eexists. split; [by apply elem_of_update_rows|]. by destruct (decide _).
    + by apply Forall_update_rows.
  - assert (Hne : APIKey.id r ≠ key_id).
    { intros Hk. rewrite Forall_forall in Hall.
      destruct (Hall r Hr Hk) as (_ & Hsome & _). congruence. }
    split; [|split].
    + by apply Forall_update_rows.
    + eexists. split; [by apply elem_of_update_rows|]. by destruct (decide _).
    + apply Forall_update_rows_at; [|done]. intros r' _ Hpk _ Hk. cbn in Hk. congruence.
  - split; [done|]. split; [by exists r0|done].
Qed.

Lemma run_stays_revoked key_id p t calls s :
  stays_revoked key_id p t s -> stays_revoked key_id p t (run s calls).
Proof.
  revert s. induction calls as [|c calls IH]; intros s Hs; [exact Hs|].
  cbn. apply IH. eapply effect_stays_revoked; [apply step_effect|exact Hs].
Qed.

Lemma revoke_stays_revoked s now key_id user_id k s1 :
  primary_keys_ok s ->
  APIKeyService.revoke_api_key now key_id user_id s = Ok (Some k, s1) ->
  APIKey.id k = key_id ∧ k ∈ api_keys s1
  ∧ stays_revoked key_id (APIKey.key_prefix k) now s1.
Proof.
  intros [Hnd Hlt]. rewrite revoke_api_key_run.
  destruct (filter _ _) as [|k0 [|k' l]] eqn:E; try discriminate.
  intros [= <- <-]. apply filter_singleton_elem in E as [Hk0 (Hid & _ & _)].
  pose proof (elem_of_update_rows (APIKey.id k0) (revoked now) _ _ Hk0) as Hin.
  rewrite decide_True in Hin by done.
  split; [exact Hid|]. split; [exact Hin|].
  unfold stays_revoked. cbn [api_keys api_keys_seq with_api_keys].
  split; [by apply Forall_update_rows|]. split; [by exists (revoked now k0)|].
  unfold update_rows. apply Forall_map, Forall_forall. intros r Hr. cbn.
  destruct (decide (APIKey.id r = APIKey.id k0)) as [Heq|Hneq]; cbn; [|congruence].
  intros _. by rewrite (NoDup_fmap_eq APIKey.id _ r k0 Hnd Hr Hk0 Heq).
Qed.

(** X23. After a revocation the secret of the credential is never
    accepted again.  Along every history of calls the row stays revoked; as long as
    no other row carries the digest of the secret, [verify_and_update_key]
    with the secret returns no credential when at most one active row has
    its prefix, and raises [MultipleResultsFound] when two or more have
    it; the dependency of the gated routes answers 401 in the first case
    and lets the exception pass in the second, and writes nothing. *)
Theorem revoked_secret_is_never_accepted (s s1 : Store) (now key_id user_id : Z)
    (k : APIKey.t) (api_key : string) (calls : list call) (now' : Z) :
  primary_keys_ok s ->
  APIKeyService.revoke_api_key now key_id user_id s = Ok (Some k, s1) ->
  secret_of api_key k ->
  let s2 := run s1 calls in
  let candidates :=
    filter (fun r => APIKey.key_prefix r = str_take 8 api_key ∧ APIKey.status r = ACTIVE)
           (api_keys s2) in
  (∀ r, r ∈ api_keys s2 -> APIKey.key_hash r = get_api_key_hash api_key ->
        APIKey.id r = key_id) ->
  (∃ r, r ∈ api_keys s2 ∧ APIKey.id r = key_id
        ∧ APIKey.status r = REVOKED ∧ APIKey.revoked_at r = Some now)
  ∧ APIKeyService.verify_and_update_key now' api_key s2
    = (if decide (length candidates <= 1)%nat then Ok (None, s2)
       else Raise MultipleResultsFound)
  ∧ utils.get_current_user_by_api_key now' api_key s2
    = (Raise (if decide (length candidates <= 1)%nat then HTTPException 401
              else MultipleResultsFound), s2).
Proof.
  intros Hok Hrev [Hp Hh] s2 candidates Hdigest.
  destruct (revoke_stays_revoked _ _ _ _ _ _ Hok Hrev) as (Hid & Hin & Hinv).
  pose proof (run_stays_revoked _ _ _ calls _ Hinv) as (_ & (r & Hr & Hrid) & Hall).
  fold s2 in Hr, Hall. rewrite Forall_forall in Hall.
  destruct (Hall r Hr Hrid) as (Hrst & Hrat & _).
  split; [by exists r|].
  rewrite gate_run, verify_and_update_key_run. fold candidates.
  destruct candidates as [|k1 [|k2 l]] eqn:E; cbn [length].
  - rewrite decide_True by lia. done.
  - rewrite decide_True by lia.
    apply filter_singleton_elem in E as [Hk1 [_ Hactive]].
    destruct (verify_api_key api_key (APIKey.key_hash k1)) eqn:Hv; [|done].
    apply verify_api_key_true in Hv.
    destruct (Hall k1 Hk1 (Hdigest k1 Hk1 Hv)) as (Hrevoked & _). congruence.
  - rewrite decide_False by lia. done.
Qed.

Lemma revoked_secret_is_never_accepted_witness :
  ∃ k s1,
    APIKeyService.revoke_api_key 20 1 42 one_key_store = Ok (Some k, s1)
    ∧ let s2 := run s1 [CreateKey secret_c 25 42 "second"; VerifyKey 26 secret_c] in
      APIKeyService.verify_and_update_key 30 secret_a s2 = Ok (None, s2)
      ∧ utils.get_current_user_by_api_key 30 secret_a s2
        = (Raise (HTTPException 401), s2).
Proof.
  eexists _, _. split; [vm_compute; reflexivity|].
  intros s2.
  destruct (revoked_secret_is_never_accepted one_key_store
              (with_api_keys [revoked 20 (APIKey.mk 1 (str_take 8 secret_a)
                                            (get_api_key_hash secret_a) "first"
                                            ACTIVE None None None 42 10)]
                             one_key_store)
              20 1 42
              (revoked 20 (APIKey.mk 1 (str_take 8 secret_a)
                             (get_api_key_hash secret_a) "first"
                             ACTIVE None None None 42 10))
              secret_a
              [CreateKey secret_c 25 42 "second"; VerifyKey 26 secret_c] 30)
    as (_ & Hv & Hd).
  { split; apply (bool_decide_unpack _); vm_compute; exact I. }
  { vm_compute; reflexivity. }
  { split; vm_compute; reflexivity. }
  { apply (proj1 (Forall_forall (fun r => _ -> _) _)).
    apply (bool_decide_unpack _). vm_compute. exact I. }
  cbv zeta in Hv, Hd.
  rewrite decide_True in Hv by (vm_compute; lia).
  rewrite decide_True in Hd by (vm_compute; lia).
  split; [exact Hv|exact Hd].
Defined.

(** C3 (the code at the failing input). The credential issued with
    [secret_a] is revoked, the row says so; then two credentials are
    issued whose secrets start with the same 8 characters.  Presented with
    the revoked secret, [verify_and_update_key] raises
    [MultipleResultsFound] and the dependency of the gated routes lets it
    pass instead of answering 401, while [get_user_by_api_key] answers
    none for the same secret in the same store; with one such credential
    only, the answer is 401. *)
Theorem revoked_secret_raises_on_shared_prefix :
  generate_api_key bytes_a = secret_a ∧ generate_api_key bytes_b = secret_b
  ∧ generate_api_key bytes_d = secret_d
  ∧ (∃ k s1, APIKeyService.revoke_api_key 20 1 42 one_key_store = Ok (Some k, s1)
             ∧ secret_of secret_a k
             ∧ APIKey.status k = REVOKED ∧ APIKey.revoked_at k = Some 20
             ∧ revoked_key_store
               = run s1 [CreateKey secret_b 30 42 "second";
                         CreateKey secret_d 40 42 "third"])
  ∧ (∃ k1 k2 k3, api_keys revoked_key_store = [k1; k2; k3]
                 ∧ APIKey.id k1 = 1 ∧ secret_of secret_a k1
                 ∧ APIKey.status k1 = REVOKED ∧ APIKey.revoked_at k1 = Some 20
                 ∧ APIKey.status k2 = ACTIVE ∧ secret_of secret_b k2
                 ∧ APIKey.status k3 = ACTIVE ∧ secret_of secret_d k3)
  ∧ APIKeyService.verify_and_update_key 50 secret_a revoked_key_store
    = Raise MultipleResultsFound
  ∧ utils.get_current_user_by_api_key 50 secret_a revoked_key_store
    = (Raise MultipleResultsFound, revoked_key_store)
  ∧ APIKeyService.get_user_by_api_key 50 secret_a revoked_key_store
    = Ok (None, revoked_key_store)
  ∧ (let s := run one_key_store [RevokeKey 20 1 42; CreateKey secret_b 30 42 "second"] in
     utils.get_current_user_by_api_key 50 secret_a s = (Raise (HTTPException 401), s)).
Proof.
  do 3 (split; [vm_compute; reflexivity|]).
  split.
  { eexists _, _. split; [vm_compute; reflexivity|].
    split; [split; vm_compute; reflexivity|].
    do 2 (split; [reflexivity|]). vm_compute. reflexivity. }
  split.
  { eexists _, _, _. split; [vm_compute; reflexivity|].
    split; [reflexivity|]. split; [split; vm_compute; reflexivity|].
    do 3 (split; [reflexivity|]). split; [split; vm_compute; reflexivity|].
    split; [reflexivity|]. split; vm_compute; reflexivity. }
  do 3 (split; [vm_compute; reflexivity|]).
  vm_compute. reflexivity.
Qed.

(** ** Issuance, then verification *)

(** X24. A secret verified right after it was issued:
    [verify_and_update_key] returns the issued record, same identifier, with [last_used_at] set,
    when no active credential of the store already carried the first 8
    characters of the new secret; when one did, it raises
    [MultipleResultsFound]. *)
Theorem verify_after_issue_by_prefix (s : Store) (token : string) (now now' : Z)
    (user_id : Z) (name : string) :
  ∃ k s1,
    APIKeyService.create_api_key token now user_id name s = Ok ((k, token), s1)
    ∧ ((∀ r, r ∈ api_keys s -> APIKey.status r = ACTIVE ->
             APIKey.key_prefix r ≠ str_take 8 token) ->
       ∃ k' s2,
         APIKeyService.verify_and_update_key now' token s1 = Ok (Some k', s2)
         ∧ APIKey.id k' = APIKey.id k
         ∧ k' = APIKey.set_last_used_at (Some now') k)
    ∧ ((∃ r, r ∈ api_keys s ∧ APIKey.status r = ACTIVE
             ∧ APIKey.key_prefix r = str_take 8 token) ->
       APIKeyService.verify_and_update_key now' token s1 = Raise MultipleResultsFound).
Proof.
  rewrite create_api_key_run. cbv zeta. eexists _, _. split; [reflexivity|].
  rewrite verify_and_update_key_run. cbn [api_keys].
  rewrite filter_app, filter_cons_True, filter_nil by done.
  split.
  - intros Hfresh. rewrite (filter_none _ (api_keys s)).
    2:{ intros r Hr [Hp Ha]. by apply (Hfresh r). }
    cbn [app APIKey.key_hash]. rewrite verify_api_key_hash.
    eexists _, _. split; [reflexivity|]. split; reflexivity.
  - intros (r & Hr & Ha & Hp).
    assert (Hin : r ∈ filter (fun k => APIKey.key_prefix k = str_take 8 token
                                       ∧ APIKey.status k = ACTIVE) (api_keys s))
      by (by apply list_elem_of_filter).
    destruct (filter _ (api_keys s)) as [|k0 [|k1 l]]; [by apply elem_of_nil in Hin|done|done].
Qed.

Lemma verify_after_issue_by_prefix_witness :
  ∃ k k' s1 s2,
    APIKeyService.create_api_key secret_c 40 42 "ci-bot" one_key_store
    = Ok ((k, secret_c), s1)
    ∧ APIKeyService.verify_and_update_key 41 secret_c s1 = Ok (Some k', s2)
    ∧ APIKey.id k' = APIKey.id k
    ∧ k' = APIKey.set_last_used_at (Some 41) k.
Proof.
  destruct (verify_after_issue_by_prefix one_key_store secret_c 40 41 42 "ci-bot")
    as (k & s1 & Hrun & Hfresh & _).
  destruct Hfresh as (k' & s2 & Hv & Hid & Hk').
  { intros r Hr _. apply list_elem_of_singleton in Hr as ->. vm_compute. discriminate. }
  by exists k, k', s1, s2.
Defined.

(** C1 (the code at the failing input). A token of 32 random bytes whose
    first 8 characters are those of the active credential of the store is
    issued to the same owner: the new credential is active, with the
    prefix and the digest of its secret, and the verification that follows
    at once raises [MultipleResultsFound]: it returns no credential, and
    the dependency of the gated routes lets the exception pass, while
    [get_user_by_api_key] resolves the new secret to its owner. *)
Theorem verify_after_issue_raises_on_shared_prefix :
  generate_api_key bytes_a = secret_a ∧ generate_api_key bytes_b = secret_b
  ∧ (∃ k0, api_keys one_key_store = [k0] ∧ APIKey.status k0 = ACTIVE
           ∧ secret_of secret_a k0)
  ∧ ∃ k s1,
      APIKeyService.create_api_key secret_b 20 42 "second" one_key_store
      = Ok ((k, secret_b), s1)
      ∧ APIKey.id k = 2 ∧ APIKey.status k = ACTIVE ∧ secret_of secret_b k
      ∧ APIKeyService.verify_and_update_key 21 secret_b s1 = Raise MultipleResultsFound
      ∧ utils.get_current_user_by_api_key 21 secret_b s1
        = (Raise MultipleResultsFound, s1)
      ∧ ∃ s2, APIKeyService.get_user_by_api_key 21 secret_b s1 = Ok (Some owner42, s2).
Proof.
  do 2 (split; [vm_compute; reflexivity|]).
  split.
  { eexists. split; [reflexivity|]. split; [reflexivity|]. split; vm_compute; reflexivity. }
  eexists _, _. split; [vm_compute; reflexivity|].
  do 2 (split; [reflexivity|]). split; [split; vm_compute; reflexivity|].
  do 2 (split; [vm_compute; reflexivity|]).
  eexists. vm_compute. reflexivity.
Qed.

(** ** The frame of a verification *)

Lemma same_but_last_used_at_set v r :
  same_but_last_used_at r (APIKey.set_last_used_at v r).
Proof. by repeat split. Qed.

Lemma same_but_last_used_at_refl r : same_but_last_used_at r r.
Proof. by repeat split. Qed.

(** C10. A successful [verify_and_update_key] rewrites only
    [last_used_at], and only in the row of the matched credential: the
    returned record and every stored row agree with what was stored before
    on every other column, rows of another identifier are untouched, and
    the other tables and the sequences are as they were. *)
Theorem verify_frame (s s' : Store) (now : Z) (api_key : string) (k : APIKey.t) :
  APIKeyService.verify_and_update_key now api_key s = Ok (Some k, s') ->
  (∃ k0, k0 ∈ api_keys s ∧ same_but_last_used_at k0 k
         ∧ APIKey.last_used_at k = Some now)
  ∧ length (api_keys s') = length (api_keys s)
  ∧ (∀ i r, api_keys s !! i = Some r ->
       ∃ r', api_keys s' !! i = Some r' ∧ same_but_last_used_at r r'
             ∧ (APIKey.id r ≠ APIKey.id k -> r' = r))
  ∧ api_key_usage s' = api_key_usage s ∧ users s' = users s
  ∧ api_keys_seq s' = api_keys_seq s ∧ api_key_usage_seq s' = api_key_usage_seq s.
Proof.
  rewrite verify_and_update_key_run.
  destruct (filter _ _) as [|k0 [|k1 l]] eqn:E; try discriminate.
  destruct (verify_api_key _ _); [|discriminate].
  intros [= <- <-]. apply filter_singleton_elem in E as [Hk0 _].
  split; [exists k0; split; [done|]; split; [apply same_but_last_used_at_set|done]|].
  cbn [api_keys api_key_usage users api_keys_seq api_key_usage_seq with_api_keys].
  unfold update_rows. split; [by rewrite length_map|]. split; [|done].
  intros i r Hi. rewrite list_lookup_fmap, Hi. cbn.
  eexists. split; [reflexivity|].
  destruct (decide _) as [Heq|Hne].
  - split; [apply same_but_last_used_at_set|]. intros Hneq. by destruct Hneq.
  - split; [apply same_but_last_used_at_refl|done].
Qed.

Lemma verify_frame_witness :
  ∃ r', api_keys (store_after (APIKeyService.verify_and_update_key 30 secret_a)
                    one_key_store) !! 0%nat = Some r'
        ∧ APIKey.key_hash r' = get_api_key_hash secret_a
        ∧ APIKey.created_at r' = 10.
Proof.
  destruct (verify_frame one_key_store
              (store_after (APIKeyService.verify_and_update_key 30 secret_a) one_key_store)
              30 secret_a
              (APIKey.mk 1 (str_take 8 secret_a) (get_api_key_hash secret_a) "first"
                         ACTIVE None (Some 30) None 42 10))
    as (_ & _ & Hrows & _).
  - vm_compute; reflexivity.
  - destruct (Hrows 0%nat
                (APIKey.mk 1 (str_take 8 secret_a) (get_api_key_hash secret_a) "first"
                           ACTIVE None None None 42 10))
      as (r' & Hr' & Hsame & _); [vm_compute; reflexivity|].
    exists r'. split; [exact Hr'|].
    destruct Hsame as (_ & Hh & _ & _ & _ & _ & _ & Hc & _). by split.
Defined.

(** ** Revocation and its not-found answer *)

Lemma revoke_none_iff s now key_id user_id :
  APIKeyService.revoke_api_key now key_id user_id s = Ok (None, s)
  <-> ¬ ∃ k, k ∈ api_keys s ∧ revocable key_id user_id k.
Proof.
  rewrite revoke_api_key_run. split.
  - intros Hrun (k & Hk & Hr).
    assert (Hin : k ∈ filter (revocable key_id user_id) (api_keys s))
      by (by apply list_elem_of_filter).
    unfold revocable in Hin.
    destruct (filter _ _) as [|k0 [|k1 l]]; [by apply elem_of_nil in Hin|done|done].
  - intros Hno. rewrite filter_none; [done|].
    intros k Hk Hr. apply Hno. by exists k.
Qed.

Lemma filter_at_most_one {A B} (f : A -> B) (P : A -> Prop)
    `{!∀ x, Decision (P x)} (l : list A) (b : B) :
  NoDup (f <$> l) -> (∀ x, P x -> f x = b) ->
  filter P l = [] ∨ ∃ x, filter P l = [x].
Proof.
  intros Hnd Hb.
  destruct (filter P l) as [|x [|y l']] eqn:E; [by left|right; by exists x|].
  exfalso.
  assert (Hs : NoDup (f <$> filter P l)).
  { eapply sublist_NoDup; [exact Hnd|]. apply fmap_sublist, sublist_filter. }
  assert (Hx : P x) by (apply (list_elem_of_filter P l x); rewrite E; left).
  assert (Hy : P y) by (apply (list_elem_of_filter P l y); rewrite E; right; left).
  rewrite E in Hs. cbn in Hs. apply NoDup_cons in Hs as [Hs _].
  apply Hs. rewrite (Hb x Hx), <- (Hb y Hy). left.
Qed.

(** In a coherent row an empty [revoked_at] and the status [ACTIVE] say
    the same. *)
Lemma coherent_active k :
  coherent k -> (APIKey.revoked_at k = None <-> APIKey.status k = ACTIVE).
Proof.
  intros [[Hs Hr] | [Hs [t Hr]]]; rewrite Hs, Hr; split; intros; done.
Qed.

Lemma not_found_iff_none_revocable s key_id user_id :
  primary_keys_ok s -> Forall coherent (api_keys s) ->
  ((∀ k, k ∈ api_keys s -> APIKey.id k ≠ key_id)
   ∨ (∃ k, k ∈ api_keys s ∧ APIKey.id k = key_id
           ∧ (APIKey.user_id k ≠ user_id ∨ APIKey.status k ≠ ACTIVE)))
  <-> ¬ ∃ k, k ∈ api_keys s ∧ revocable key_id user_id k.
Proof.
  intros [Hnd _] Hco. rewrite Forall_forall in Hco. split.
  - intros Hnf (k' & Hk' & Hid' & Hu' & Hr').
    destruct Hnf as [Hnone | (k & Hk & Hid & Hbad)]; [by apply (Hnone k')|].
    assert (k = k') as -> by (apply (NoDup_fmap_eq APIKey.id (api_keys s)); congruence).
    destruct Hbad as [Hu | Hs]; [done|].
    apply Hs, coherent_active; [by apply Hco|done].
  - intros Hno.
    destruct (decide (Exists (fun k => APIKey.id k = key_id) (api_keys s))) as [Hex | Hnex].
    + right. apply Exists_exists in Hex as (k & Hk & Hid).
      exists k. split; [done|]. split; [done|].
      destruct (decide (APIKey.user_id k = user_id)) as [Hu | Hu]; [|by left].
      right. intros Hs. apply Hno. exists k. split; [done|].
      split; [done|]. split; [done|]. apply coherent_active; [by apply Hco|done].
    + left. intros k Hk Hid. apply Hnex, Exists_exists. by exists k.
Qed.

(** C5. On a store whose rows are coherent (every row is active and not
    revoked, or revoked at some time: what every history of calls keeps),
    [revoke_api_key] answers not-found ([None], which the route raises as
    404) exactly when no row has the identifier, or the row of that
    identifier has another owner or a status other than active.
    Otherwise it revokes the row; a second revocation then answers
    not-found and leaves the store as it is. *)
Theorem revoke_not_found_iff (s : Store) (now key_id : Z) (current_user : User.t) :
  primary_keys_ok s -> Forall coherent (api_keys s) ->
  let user_id := User.id current_user in
  let not_found :=
    (∀ k, k ∈ api_keys s -> APIKey.id k ≠ key_id)
    ∨ (∃ k, k ∈ api_keys s ∧ APIKey.id k = key_id
            ∧ (APIKey.user_id k ≠ user_id ∨ APIKey.status k ≠ ACTIVE)) in
  (APIKeyService.revoke_api_key now key_id user_id s = Ok (None, s) <-> not_found)
  ∧ (api_keys.revoke_api_key now key_id current_user s = Raise (HTTPException 404)
     <-> not_found)
  ∧ (∀ k, k ∈ api_keys s -> APIKey.id k = key_id -> APIKey.user_id k = user_id ->
          APIKey.status k = ACTIVE ->
       ∃ s1, APIKeyService.revoke_api_key now key_id user_id s
             = Ok (Some (revoked now k), s1)
             ∧ APIKey.status (revoked now k) = REVOKED
             ∧ ∀ now', APIKeyService.revoke_api_key now' key_id user_id s1
                       = Ok (None, s1)
                       ∧ api_keys.revoke_api_key now' key_id current_user s1
                         = Raise (HTTPException 404)).
Proof.
  intros Hok Hco user_id not_found. subst not_found.
  rewrite (not_found_iff_none_revocable s key_id user_id Hok Hco).
  destruct Hok as [Hnd Hlt].
  assert (Hroute : ∀ now0 s0,
            api_keys.revoke_api_key now0 key_id current_user s0 = Raise (HTTPException 404)
            <-> APIKeyService.revoke_api_key now0 key_id user_id s0 = Ok (None, s0)).
  { intros now0 s0. unfold api_keys.revoke_api_key. db_run. fold user_id.
    rewrite revoke_api_key_run.
    destruct (filter _ _) as [|k0 [|k1 l]]; split; done. }
  split; [apply revoke_none_iff|]. split.
  - rewrite Hroute. apply revoke_none_iff.
  - intros k Hk Hid Hu Hs.
    assert (Hr : revocable key_id user_id k).
    { split; [done|]. split; [done|]. apply coherent_active; [|done].
      rewrite Forall_forall in Hco. by apply Hco. }
    destruct (filter_at_most_one APIKey.id (revocable key_id user_id) (api_keys s)
                key_id Hnd) as [E | [k0 E]]; [by intros x [? ?]| |].
    { exfalso. eapply (filter_nil_not_elem_of _ _ k E); done. }
    assert (k0 = k) as ->.
    { assert (Hin : k ∈ filter (revocable key_id user_id) (api_keys s))
        by (by apply list_elem_of_filter).
      rewrite E in Hin. by apply list_elem_of_singleton in Hin. }
    eexists. split.
    { rewrite revoke_api_key_run. unfold revocable in E. rewrite E. reflexivity. }
    split; [reflexivity|].
    assert (Hnone : ∀ now', APIKeyService.revoke_api_key now' key_id user_id
                              (with_api_keys (update_rows (APIKey.id k) (revoked now)
                                                (api_keys s)) s)
                            = Ok (None, with_api_keys
                                          (update_rows (APIKey.id k) (revoked now)
                                             (api_keys s)) s)).
    { intros now'. apply revoke_none_iff.
      cbn [api_keys with_api_keys]. intros (r & Hin & Hrid & _ & Hnone).
      unfold update_rows in Hin. apply list_elem_of_fmap in Hin as (r0 & -> & Hr0).
      destruct (decide (APIKey.id r0 = APIKey.id k)) as [Heq|Hne]; [done|].
      apply Hne. cbn in Hrid. congruence. }
    intros now'. split; [apply Hnone|]. apply Hroute, Hnone.
Qed.

Lemma revoke_not_found_iff_witness :
  ∃ s1, APIKeyService.revoke_api_key 20 1 42 one_key_store
        = Ok (Some (revoked 20 (APIKey.mk 1 (str_take 8 secret_a)
                                  (get_api_key_hash secret_a) "first"
                                  ACTIVE None None None 42 10)), s1)
        ∧ APIKeyService.revoke_api_key 30 1 42 s1 = Ok (None, s1)
        ∧ api_keys.revoke_api_key 30 1 owner42 s1 = Raise (HTTPException 404).
Proof.
  destruct (revoke_not_found_iff one_key_store 20 1 owner42) as (_ & _ & Hrevoke).
  - split; apply (bool_decide_unpack _); vm_compute; exact I.
  - apply Forall_singleton. left. by split.
  - destruct (Hrevoke (APIKey.mk 1 (str_take 8 secret_a) (get_api_key_hash secret_a)
                         "first" ACTIVE None None None 42 10))
      as (s1 & Hrun & _ & Hsecond); [left|reflexivity|reflexivity|reflexivity|].
    exists s1. split; [exact Hrun|]. apply (Hsecond 30).
Defined.

(** ** Listing *)

(** The claim as the spec words it fails on two credentials issued one
    after the other: the list starts with the oldest. *)
Lemma list_keys_oldest_first :
  ∃ k1 k2,
    APIKeyService.get_user_api_keys 42 two_key_store = Ok ([k1; k2], two_key_store)
    ∧ APIKey.created_at k1 = 10 ∧ APIKey.created_at k2 = 20
    ∧ ¬ StronglySorted (fun a b => APIKey.created_at b <= APIKey.created_at a) [k1; k2].
Proof.
  eexists _, _. split; [vm_compute; reflexivity|].
  split; [reflexivity|]. split; [reflexivity|].
  intros Hs. apply StronglySorted_inv in Hs as [_ Hall].
  apply Forall_cons in Hall as [Hle _]. cbn in Hle. lia.
Qed.

(** C7 (amended). [get_user_api_keys] returns exactly the rows of the
    owner whose [revoked_at] is empty, each as often as the table holds it
    (once, as the primary key is sound), and leaves the store as it is.
    The query has no ORDER BY: nothing is stated on the order of the
    list. *)
Theorem list_keys_unordered (s : Store) (user_id : Z) :
  ∃ keys,
    APIKeyService.get_user_api_keys user_id s = Ok (keys, s)
    ∧ (∀ k, k ∈ keys <->
            k ∈ api_keys s ∧ APIKey.user_id k = user_id ∧ APIKey.revoked_at k = None)
    ∧ keys ≡ₚ filter (fun k => APIKey.user_id k = user_id ∧ APIKey.revoked_at k = None)
                     (api_keys s)
    ∧ (primary_keys_ok s -> NoDup keys ∧ NoDup (APIKey.id <$> keys))
    ∧ store_after (APIKeyService.get_user_api_keys user_id) s = s.
Proof.
  eexists. split; [apply get_user_api_keys_run|].
  split; [|split; [reflexivity|split; [|reflexivity]]].
  - intros k. rewrite list_elem_of_filter. tauto.
  - intros [Hnd _].
    assert (Hids : NoDup (APIKey.id <$> filter (fun k => APIKey.user_id k = user_id
                                                        ∧ APIKey.revoked_at k = None)
                                               (api_keys s))).
    { eapply sublist_NoDup; [exact Hnd|]. apply fmap_sublist, sublist_filter. }
    split; [|exact Hids]. by apply NoDup_fmap_1 in Hids.
Qed.

Lemma list_keys_unordered_witness :
  ∃ keys, APIKeyService.get_user_api_keys 42 two_key_store = Ok (keys, two_key_store)
          ∧ NoDup keys ∧ NoDup (APIKey.id <$> keys).
Proof.
  destruct (list_keys_unordered two_key_store 42) as (keys & Hrun & _ & _ & Hnd & _).
  exists keys. split; [exact Hrun|].
  apply Hnd. split; apply (bool_decide_unpack _); vm_compute; exact I.
Defined.

(** ** Issuance *)

Lemma parse_APIKeyCreate_run name s :
  parse_APIKeyCreate name s
  = if decide (1 <= String.length name <= 100)%nat
    then Ok (APIKeyCreate.mk name, s) else Raise ValidationError.
Proof. unfold parse_APIKeyCreate. by destruct (decide _). Qed.

(** C8 (the code at the failing input). The route that issues a
    credential raises [ValidationError] exactly when the label is empty or
    longer than 100 characters: the length is all it checks.  The label of
    one character of code point 0 passes, and the row the route has
    committed when it returns carries that label: the text PostgreSQL does
    not store. *)
Theorem create_validates_length_only (s : Store) (token : string) (now : Z)
    (current_user : User.t) :
  (∀ body, api_keys.create_api_key token now body current_user s = Raise ValidationError
           <-> (String.length body = 0 ∨ 100 < String.length body)%nat)
  ∧ String.length nul_label = 1%nat
  ∧ parse_APIKeyCreate nul_label s = Ok (APIKeyCreate.mk nul_label, s)
  ∧ api_keys.create_api_key token now nul_label current_user s ≠ Raise ValidationError
  ∧ ∀ resp s',
      api_keys.create_api_key token now nul_label current_user s = Ok (resp, s') ->
      ∃ k, api_keys s' = (api_keys s ++ [k])%list ∧ APIKey.name k = nul_label
           ∧ APIKeyResponse.name (APIKeyCreateResponse.base resp) = nul_label.
Proof.
  split.
  { intros body. unfold api_keys.create_api_key, mbind, DB_bind.
    rewrite parse_APIKeyCreate_run.
    destruct (decide _) as [Hlen|Hlen].
    - rewrite create_api_key_run. cbv zeta. split; [discriminate|lia].
    - split; [lia|reflexivity]. }
  split; [reflexivity|]. split; [reflexivity|]. split; [discriminate|].
  intros resp s'. unfold api_keys.create_api_key, mbind, DB_bind.
  rewrite parse_APIKeyCreate_run, decide_True by (cbn; lia).
  rewrite create_api_key_run. cbv zeta. intros [= <- <-].
  eexists. split; [reflexivity|]. split; reflexivity.
Qed.

Example create_rejects_empty_label s token now u :
  api_keys.create_api_key token now "" u s = Raise ValidationError.
Proof. reflexivity. Qed.

(** ** The secret is not stored *)

Lemma KeyStatus_value_length st : (String.length (KeyStatus_value st) <= 8)%nat.
Proof. destruct st; cbn; lia. Qed.

(** C6. Issuing a credential returns the secret drawn from 32 random
    bytes and stores a row that holds its SHA-256 digest (64 hexadecimal
    characters) and its first 8 characters; no text column of the row is
    the secret (for a label that is not itself the secret), the stores
    before and after differ by that row only, and the responses built from
    a stored row carry no secret while the creation response carries it. *)
Theorem issue_never_stores_secret (s : Store) (token_bytes : nat -> list Z)
    (now user_id : Z) (name : string) :
  length (token_bytes 32%nat) = 32%nat ->
  name ≠ generate_api_key token_bytes ->
  let token := generate_api_key token_bytes in
  ∃ k s1,
    APIKeyService.create_api_key token now user_id name s = Ok ((k, token), s1)
    ∧ api_keys s1 = (api_keys s ++ [k])%list
    ∧ api_key_usage s1 = api_key_usage s ∧ users s1 = users s
    ∧ secret_of token k
    ∧ String.length (APIKey.key_hash k) = 64%nat
    ∧ (String.length (APIKey.key_prefix k) <= 8)%nat
    ∧ (token ∉ persisted_strings k)
    ∧ (token ∉ [APIKeyResponse.name (api_key_response k);
                APIKeyResponse.key_prefix (api_key_response k);
                APIKeyResponse.status (api_key_response k)]).
Proof.
  intros Hbytes Hname token.
  pose proof (generate_api_key_length token_bytes Hbytes) as Hlen. fold token in Hlen.
  rewrite create_api_key_run. cbv zeta. eexists _, _. split; [reflexivity|].
  cbn [api_keys api_key_usage users APIKey.key_hash APIKey.key_prefix].
  do 3 (split; [reflexivity|]). split; [by split|].
  split; [apply get_api_key_hash_length|]. split; [apply str_take_length|].
  assert (Hp : token ≠ str_take 8 token).
  { intros E. pose proof (str_take_length 8 token) as Hl. rewrite <- E in Hl. lia. }
  assert (Hh : token ≠ get_api_key_hash token).
  { intros E. pose proof (get_api_key_hash_length token) as Hl. rewrite <- E in Hl. lia. }
  assert (Hs : token ≠ "active").
  { intros E. rewrite E in Hlen. cbn in Hlen. lia. }
  unfold persisted_strings, api_key_response.
  cbn [APIKey.key_hash APIKey.key_prefix APIKey.name APIKey.status KeyStatus_value
       APIKeyResponse.name APIKeyResponse.key_prefix APIKeyResponse.status].
  fold token in Hname. clearbody token.
  split; rewrite !elem_of_cons, elem_of_nil; intuition congruence.
Qed.

Lemma issue_never_stores_secret_witness :
  ∃ k s1,
    APIKeyService.create_api_key secret_a 10 42 "first" empty_store
    = Ok ((k, secret_a), s1)
    ∧ api_keys s1 = [k]
    ∧ (secret_a ∉ persisted_strings k).
Proof.
  destruct (issue_never_stores_secret empty_store bytes_a
              10 42 "first")
    as (k & s1 & Hrun & Hrows & _ & _ & _ & _ & _ & Hno & _).
  - vm_compute; reflexivity.
  - vm_compute; discriminate.
  - exists k, s1. split; [exact Hrun|]. split; [exact Hrows|exact Hno].
Defined.

(** ** The statistics *)

(** *** Counting *)

Lemma sum_int_ones {A} (l : list A) :
  sum_int ((fun _ => 1) <$> l) = Z.of_nat (length l).
Proof.
  unfold sum_int. enough (H : ∀ a, fold_left Z.add ((fun _ => 1) <$> l) a
                                   = a + Z.of_nat (length l)) by apply H.
  induction l as [|x l IH]; intros a; cbn [fmap list_fmap fold_left length].
  - lia.
  - rewrite IH. lia.
Qed.

(** *** The endpoint histogram *)

Lemma records_of_endpoint_cons e log logs :
  records_of_endpoint e (log :: logs)
  = (if decide (APIKeyUsage.endpoint log = e) then 1 else 0)
    + records_of_endpoint e logs.
Proof.
  unfold records_of_endpoint. rewrite filter_cons.
  destruct (decide _); cbn [length]; lia.
Qed.

Lemma records_of_endpoint_nonneg e logs : 0 <= records_of_endpoint e logs.
Proof. unfold records_of_endpoint. lia. Qed.

Lemma fold_bump_lookup logs (m : gmap string Z) e :
  fold_left bump logs m !! e
  = if decide (records_of_endpoint e logs = 0) then m !! e
    else Some (default 0 (m !! e) + records_of_endpoint e logs).
Proof.
  revert m. induction logs as [|log logs IH]; intros m; [reflexivity|].
  cbn [fold_left]. rewrite IH, records_of_endpoint_cons.
  pose proof (records_of_endpoint_nonneg e logs) as Hnn.
  unfold bump. destruct (decide (APIKeyUsage.endpoint log = e)) as [->|Hne].
  - rewrite lookup_insert_eq. cbn [default].
    destruct (decide (records_of_endpoint e logs = 0)) as [E|E].
    + rewrite E, decide_False by lia. f_equal; lia.
    + rewrite decide_False by lia. unfold id. f_equal; lia.
  - rewrite lookup_insert_ne by done.
    destruct (decide (records_of_endpoint e logs = 0)) as [E|E].
    + by rewrite decide_True by lia.
    + rewrite decide_False by lia. f_equal.
Qed.

Lemma histogram_total_bump (m : gmap string Z) log :
  histogram_total (bump m log) = histogram_total m + 1.
Proof.
  unfold histogram_total, bump. set (e := APIKeyUsage.endpoint log).
  assert (Hcomm : ∀ (j1 j2 : string) (z1 z2 y : Z), z1 + (z2 + y) = z2 + (z1 + y))
    by (intros; lia).
  destruct (m !! e) as [v|] eqn:E; cbn [default].
  - rewrite <- insert_delete_eq.
    rewrite map_fold_insert_L; [|by intros; apply Hcomm|apply lookup_delete_eq].
    rewrite (map_fold_delete_L _ _ e v m); [unfold id; lia|by intros; apply Hcomm|done].
  - rewrite map_fold_insert_L; [lia|by intros; apply Hcomm|done].
Qed.

Lemma histogram_total_fold logs (m : gmap string Z) :
  histogram_total (fold_left bump logs m) = histogram_total m + Z.of_nat (length logs).
Proof.
  revert m. induction logs as [|log logs IH]; intros m; cbn [fold_left length].
  - lia.
  - rewrite IH, histogram_total_bump. lia.
Qed.

Lemma count_by_endpoint_lookup logs e :
  APIKeyService.count_by_endpoint logs !! e
  = if decide (records_of_endpoint e logs = 0) then None
    else Some (records_of_endpoint e logs).
Proof.
  pose proof (fold_bump_lookup logs ∅ e) as Hfold.
  rewrite lookup_empty in Hfold. cbn [default from_option] in Hfold.
  etransitivity; [exact Hfold|]. destruct (decide _); [done|]. f_equal; lia.
Qed.

Lemma count_by_endpoint_total logs :
  histogram_total (APIKeyService.count_by_endpoint logs) = Z.of_nat (length logs).
Proof.
  pose proof (histogram_total_fold logs ∅) as Hfold.
  etransitivity; [exact Hfold|]. unfold histogram_total. by rewrite map_fold_empty.
Qed.

(** *** The stable sort, newest first *)

Section SortedReverse.
  Context {A : Type} (key : A -> Z).
Let newer (a b : A) : Prop := key b <= key a.

Lemma insert_reverse_perm x l : insert_reverse key x l ≡ₚ x :: l.
Proof.
  induction l as [|y l IH]; [reflexivity|]. cbn.
  destruct (decide _); [reflexivity|]. rewrite IH. apply Permutation_swap.
Qed.

Lemma sorted_reverse_perm l : sorted_reverse key l ≡ₚ l.
Proof.
  induction l as [|x l IH]; [reflexivity|]. cbn.
  by rewrite insert_reverse_perm, IH.
Qed.

Lemma insert_reverse_sorted x l :
  StronglySorted newer l -> StronglySorted newer (insert_reverse key x l).
Proof.
  induction l as [|y l IH]; intros Hs; cbn.
  - by repeat constructor.
  - apply StronglySorted_cons in Hs as [Hall Hs].
    destruct (decide (key y <= key x)) as [Hle|Hgt].
    + apply StronglySorted_cons. split; [|by apply StronglySorted_cons].
      apply Forall_cons. split; [exact Hle|].
      eapply Forall_impl; [exact Hall|]. unfold newer. intros; lia.
    + apply StronglySorted_cons. split; [|by apply IH].
      rewrite insert_reverse_perm. apply Forall_cons. split; [|exact Hall].
      unfold newer. lia.
Qed.

Lemma sorted_reverse_sorted l : StronglySorted newer (sorted_reverse key l).
Proof.
  induction l as [|x l IH]; cbn; [constructor|by apply insert_reverse_sorted].
Qed.

(** Rows of one key keep their order: the sort is stable. *)
Lemma insert_reverse_filter_key x l z :
  StronglySorted newer l ->
  filter (fun a => key a = z) (insert_reverse key x l)
  = filter (fun a => key a = z) (x :: l).
Proof.
  induction l as [|y l IH]; intros Hs; [reflexivity|]. cbn.
  apply StronglySorted_cons in Hs as [Hall Hs].
  destruct (decide (key y <= key x)) as [Hle|Hgt]; [reflexivity|].
  rewrite (filter_cons _ y), IH, !filter_cons by done.
  destruct (decide (key y = z)), (decide (key x = z)); try reflexivity. lia.
Qed.

Lemma sorted_reverse_stable l z :
  filter (fun a => key a = z) (sorted_reverse key l) = filter (fun a => key a = z) l.
Proof.
  induction l as [|x l IH]; [reflexivity|].
  change (sorted_reverse key (x :: l))
    with (insert_reverse key x (sorted_reverse key l)).
  rewrite insert_reverse_filter_key by apply sorted_reverse_sorted.
  by rewrite !filter_cons, IH.
Qed.

End SortedReverse.

Lemma newest_first_take n logs : newest_first logs -> newest_first (take n logs).
Proof.
  unfold newest_first. intros Hs. rewrite <- (take_drop n logs) in Hs.
  by apply StronglySorted_app_1_l in Hs.
Qed.

Lemma entries_newest_first_fmap logs :
  newest_first logs -> entries_newest_first (APIKeyService.usage_entry <$> logs).
Proof.
  unfold newest_first, entries_newest_first.
  induction logs as [|l logs IH]; intros Hs; cbn; [constructor|].
  apply StronglySorted_cons in Hs as [Hall Hs].
  apply StronglySorted_cons. split; [|by apply IH].
  apply Forall_fmap. eapply Forall_impl; [exact Hall|]. by intros.
Qed.

Lemma owned_key_selected s key_id user_id k :
  primary_keys_ok s -> k ∈ api_keys s ->
  APIKey.id k = key_id -> APIKey.user_id k = user_id ->
  filter (fun k => APIKey.id k = key_id ∧ APIKey.user_id k = user_id) (api_keys s) = [k].
Proof.
  intros [Hnd _] Hk Hid Hu.
  destruct (filter_at_most_one APIKey.id
              (fun k => APIKey.id k = key_id ∧ APIKey.user_id k = user_id)
              (api_keys s) key_id Hnd) as [E | [k0 E]]; [by intros x [? ?]| |].
  - exfalso. by eapply (filter_nil_not_elem_of _ _ k E).
  - assert (Hin : k ∈ filter (fun k => APIKey.id k = key_id ∧ APIKey.user_id k = user_id)
                             (api_keys s)) by (by apply list_elem_of_filter).
    rewrite E in Hin. apply list_elem_of_singleton in Hin as ->. exact E.
Qed.

(** The two summations of the interpreter against the spec's words. *)
Lemma total_of_sum_float xs : total_of xs (sum_float xs).
Proof.
  induction xs as [|x xs IH] using rev_ind; [constructor|].
  unfold sum_float. rewrite fold_left_app. cbn [fold_left]. by constructor.
Qed.

Lemma compensated_total_of_sum x0 rest :
  ∃ t e, compensated_total_of (x0 :: rest) t e
         ∧ sum_float_compensated (x0 :: rest)
           = (if negb (PrimFloat.is_zero e) && PrimFloat.is_finite e
              then t + e else t)%float.
Proof.
  unfold sum_float_compensated.
  enough (H : ∃ t e, compensated_total_of (x0 :: rest) t e
                     ∧ fold_left cs_add rest ((0 + x0)%float, 0%float) = (t, e)).
  { destruct H as (t & e & Hrel & ->). by exists t, e. }
  induction rest as [|x rest IH] using rev_ind.
  - eexists _, _. split; [constructor|reflexivity].
  - destruct IH as (t & e & Hrel & Hfold).
    exists (t + x)%float, (e + lost_in_addition t x)%float. split.
    + rewrite app_comm_cons. by constructor.
    + rewrite fold_left_app, Hfold. cbn [fold_left]. unfold cs_add, lost_in_addition.
      by destruct (abs x <=? abs t)%float.
Qed.

Lemma Forall2_shows logs : Forall2 shows (APIKeyService.usage_entry <$> logs) logs.
Proof.
  induction logs as [|l logs IH]; [constructor|].
  cbn. constructor; [|exact IH]. by repeat split.
Qed.

(** C4. For a credential of the caller, [get_key_usage_stats] returns the
    number of its usage records, the number of those with a status code
    below 400, their difference, the arithmetic mean of the response times
    in binary64 (their sum, as either summation of the interpreter forms
    it, divided by their number; 0.0, without a division, when there is no
    record), the histogram that maps every endpoint of a record to the
    number of its records (its counts add up to the total), and the first
    10 of the records sorted by creation time, newest first and records of
    one time in row order, each shown with every field of its record. *)
Theorem usage_stats_correct (fsum : list float -> float) (s : Store)
    (key_id user_id : Z) (k : APIKey.t) :
  primary_keys_ok s -> k ∈ api_keys s ->
  APIKey.id k = key_id -> APIKey.user_id k = user_id ->
  let logs := usage_of key_id s in
  let times := APIKeyUsage.response_time <$> logs in
  ∃ st,
    APIKeyService.get_key_usage_stats fsum key_id user_id s = Ok (Some st, s)
    ∧ APIKeyUsageStats.total_requests st = Z.of_nat (length logs)
    ∧ APIKeyUsageStats.successful_requests st
      = Z.of_nat (length (filter (fun l => APIKeyUsage.status_code l < 400) logs))
    ∧ APIKeyUsageStats.failed_requests st
      = APIKeyUsageStats.total_requests st - APIKeyUsageStats.successful_requests st
    ∧ (logs = [] -> APIKeyUsageStats.average_response_time st = 0%float)
    ∧ (logs ≠ [] -> fsum = sum_float ->
       mean_of times (APIKeyUsageStats.average_response_time st))
    ∧ (logs ≠ [] -> fsum = sum_float_compensated ->
       compensated_mean_of times (APIKeyUsageStats.average_response_time st))
    ∧ (∀ e, APIKeyUsageStats.usage_by_endpoint st !! e
            = if decide (records_of_endpoint e logs = 0) then None
              else Some (records_of_endpoint e logs))
    ∧ histogram_total (APIKeyUsageStats.usage_by_endpoint st)
      = APIKeyUsageStats.total_requests st
    ∧ length (APIKeyUsageStats.recent_usage st) = Nat.min 10 (length logs)
    ∧ entries_newest_first (APIKeyUsageStats.recent_usage st)
    ∧ ∃ sorted, sorted ≡ₚ logs ∧ newest_first sorted
                ∧ (∀ z, filter (fun l => APIKeyUsage.created_at l = z) sorted
                        = filter (fun l => APIKeyUsage.created_at l = z) logs)
                ∧ Forall2 shows (APIKeyUsageStats.recent_usage st) (take 10 sorted).
Proof.
  intros Hok Hk Hid Hu logs times.
  unfold APIKeyService.get_key_usage_stats. db_run.
  rewrite (owned_key_selected s key_id user_id k Hok Hk Hid Hu).
  unfold scalar_one_or_none. db_run.
  fold (usage_of key_id s). subst times logs.
  destruct (usage_of key_id s) as [|l0 ls].
  - eexists. split; [reflexivity|]. cbn.
    do 4 (split; [reflexivity|]). do 2 (split; [done|]).
    split; [intros e; by rewrite lookup_empty|].
    split; [unfold histogram_total; by rewrite map_fold_empty|].
    split; [reflexivity|]. split; [constructor|].
    exists []. split; [reflexivity|]. split; [constructor|]. split; [done|constructor].
  - eexists. split; [reflexivity|]. set (logs := l0 :: ls).
    cbn [APIKeyUsageStats.total_requests APIKeyUsageStats.successful_requests
         APIKeyUsageStats.failed_requests APIKeyUsageStats.average_response_time
         APIKeyUsageStats.usage_by_endpoint APIKeyUsageStats.recent_usage].
    split; [reflexivity|]. split; [apply sum_int_ones|]. split; [reflexivity|].
    split; [discriminate|].
    assert (Hn : float_of_int (Z.of_nat (length logs))
                 = count_of (APIKeyUsage.response_time <$> logs)).
    { unfold count_of, float_of_int. by rewrite length_fmap. }
    split.
    { intros _ ->. exists (sum_float (APIKeyUsage.response_time <$> logs)).
      split; [apply total_of_sum_float|by rewrite Hn]. }
    split.
    { intros _ ->.
      destruct (compensated_total_of_sum (APIKeyUsage.response_time l0)
                  (APIKeyUsage.response_time <$> ls)) as (t & e & Hrel & Hsum).
      exists t, e. split; [exact Hrel|]. rewrite Hn. f_equal. exact Hsum. }
    split; [intros e; apply count_by_endpoint_lookup|].
    split; [apply count_by_endpoint_total|].
    pose proof (sorted_reverse_perm APIKeyUsage.created_at logs) as Hperm.
    split; [rewrite length_fmap, length_take, (Permutation_length Hperm); lia|].
    pose proof (sorted_reverse_sorted APIKeyUsage.created_at logs) as Hs.
    split; [by apply entries_newest_first_fmap, newest_first_take|].
    exists (sorted_reverse APIKeyUsage.created_at logs).
    split; [exact Hperm|]. split; [exact Hs|].
    split; [intros z; apply sorted_reverse_stable|apply Forall2_shows].
Qed.

Lemma usage_stats_correct_witness :
  ∃ st,
    APIKeyService.get_key_usage_stats sum_float 1 42 five_log_store
    = Ok (Some st, five_log_store)
    ∧ APIKeyUsageStats.total_requests st = 5
    ∧ APIKeyUsageStats.successful_requests st = 3
    ∧ APIKeyUsageStats.failed_requests st = 2
    ∧ mean_of [0.5; 0.25; 0.125; 1.5; 0.125]%float
              (APIKeyUsageStats.average_response_time st)
    ∧ histogram_total (APIKeyUsageStats.usage_by_endpoint st) = 5
    ∧ APIKeyUsageStats.usage_by_endpoint st !! "/summarize" = Some 3
    ∧ length (APIKeyUsageStats.recent_usage st) = 5%nat.
Proof.
  destruct (usage_stats_correct sum_float five_log_store 1 42
              (APIKey.mk 1 (str_take 8 secret_a) (get_api_key_hash secret_a) "first"
                         ACTIVE None (Some 11) None 42 10))
    as (st & Hrun & Ht & Hs & Hf & _ & Hm & _ & He & Hh & Hl & _).
  - split; apply (bool_decide_unpack _); vm_compute; exact I.
  - vm_compute. left.
  - reflexivity.
  - reflexivity.
  - exists st. split; [exact Hrun|]. split; [exact Ht|]. split; [exact Hs|].
    assert (Hlogs : APIKeyUsage.response_time <$> usage_of 1 five_log_store
                    = [0.5; 0.25; 0.125; 1.5; 0.125]%float) by (vm_compute; reflexivity).
    cbv zeta in Hm, Hl. rewrite Hlogs in Hm.
    split; [by rewrite Hf, Ht, Hs|].
    split; [apply Hm; [vm_compute; discriminate|reflexivity]|].
    split; [by rewrite Hh, Ht|]. split; [by rewrite He|].
    rewrite Hl. vm_compute. reflexivity.
Defined.

(** *** The spec's examples, computed *)

(** The two summations on 0.1, 0.2, 0.3 and on 2^60, 1, -2^60: the plain
    sum rounds each addition, the compensated sum recovers what was
    lost. *)
Example sum_float_samples :
  let xs := [0x1.999999999999ap-4; 0x1.999999999999ap-3; 0x1.3333333333333p-2]%float in
  let ys := [0x1p60; 1; -0x1p60]%float in
  sum_float xs = 0x1.3333333333334p-1%float
  ∧ sum_float_compensated xs = 0x1.3333333333333p-1%float
  ∧ sum_float ys = 0%float
  ∧ sum_float_compensated ys = 1%float.
Proof. repeat split; vm_compute; reflexivity. Qed.

Example stats_without_records :
  APIKeyService.get_key_usage_stats sum_float 1 42 one_key_store
  = Ok (Some (APIKeyUsageStats.mk 0 0 0 0%float ∅ []), one_key_store).
Proof. vm_compute. reflexivity. Qed.

Example stats_of_five_records :
  ∃ recent,
    APIKeyService.get_key_usage_stats sum_float 1 42 five_log_store
    = Ok (Some (APIKeyUsageStats.mk 5 3 2 0.5%float
                  {[ "/summarize" := 3; "/paraphrase" := 1; "/image" := 1 ]} recent),
          five_log_store)
    ∧ APIKeyUsageEntry.created_at <$> recent = [16; 15; 14; 13; 12].
Proof. eexists. split; vm_compute; reflexivity. Qed.

Example stats_of_the_scenario :
  APIKeyService.get_key_usage_stats sum_float 1 42 scenario_store
  = Ok (Some (APIKeyUsageStats.mk 1 1 0 0x1.ae147ae147ae1p-2%float
                {[ "/summarize" := 1 ]}
                [APIKeyUsageEntry.mk "/summarize" "POST" 200 0x1.ae147ae147ae1p-2%float
                                     "10.0.0.1" (Some "curl/8.0") 12]),
        scenario_store).
Proof. vm_compute. reflexivity. Qed.

Example stats_of_another_owner :
  APIKeyService.get_key_usage_stats sum_float 1 7 five_log_store
  = Ok (None, five_log_store)
  ∧ api_keys.get_api_key_usage sum_float 1 (User.mk 7 "x@example.org" "x" "" true false)
      five_log_store = Raise (HTTPException 404).
Proof. split; vm_compute; reflexivity. Qed.

(** Records of one timestamp keep their row order. *)
Example sorted_reverse_ties :
  sorted_reverse fst [(1, "a"); (2, "b"); (1, "c"); (2, "d")]
  = [(2, "b"); (2, "d"); (1, "a"); (1, "c")].
Proof. reflexivity. Qed.

(* ===================================================================== *)
(** * Further properties of the code *)
(* ===================================================================== *)

(** ** What every history of calls keeps *)

Lemma effect_usage s s' :
  effect s s' ->
  users s' = users s
  ∧ (api_key_usage s' = api_key_usage s
     ∨ ∃ l, api_key_usage s' = (api_key_usage s ++ [l])%list).
Proof. intros [-> | r Hid -> | pk v -> | r now Hr Hnone -> | l ->]; cbn; eauto. Qed.

Lemma step_usage s c :
  users (step s c) = users s
  ∧ ∃ new, api_key_usage (step s c) = (api_key_usage s ++ new)%list
           ∧ length new = (if is_log c then 1 else 0)%nat.
Proof.
  destruct (effect_usage _ _ (step_effect s c)) as [Hu Hl]. split; [exact Hu|].
  destruct c; cbn [is_log];
    try (exists []; split; [|reflexivity]; rewrite app_nil_r;
         destruct Hl as [E | [l E]]; [exact E|]).
  - reflexivity.
  - reflexivity.
  - unfold step, store_after in *. rewrite revoke_api_key_run in *.
    destruct (filter _ _) as [|k [|k' l']]; reflexivity.
  - unfold step, store_after in *. rewrite verify_and_update_key_run in *.
    destruct (filter _ _) as [|k [|k' l']]; try reflexivity.
    destruct (verify_api_key _ _); reflexivity.
  - unfold step.
    destruct (get_user_by_api_key_store now api_key s) as [-> | [pk ->]]; reflexivity.
  - unfold step. by rewrite get_key_usage_stats_store.
  - eexists [_]. split; reflexivity.
Qed.

(** X1. The usage ledger only grows: whatever the history of service
    calls, the usage table afterwards is the table before followed by one
    new record for each call of [log_api_key_usage], and the users table
    is untouched; no call rewrites or removes a usage record. *)
Theorem usage_ledger_append_only (s : Store) (calls : list call) :
  users (run s calls) = users s
  ∧ ∃ new, api_key_usage (run s calls) = (api_key_usage s ++ new)%list
           ∧ length new = length (List.filter is_log calls).
Proof.
  revert s. induction calls as [|c calls IH]; intros s.
  - split; [reflexivity|]. exists []. split; [by rewrite app_nil_r|reflexivity].
  - change (run s (c :: calls)) with (run (step s c) calls).
    destruct (IH (step s c)) as (Hu & new & Hn & Hlen).
    destruct (step_usage s c) as (Hu1 & new1 & Hn1 & Hlen1).
    split; [congruence|]. exists (new1 ++ new)%list.
    split; [by rewrite Hn, Hn1, app_assoc|].
    rewrite length_app, Hlen, Hlen1. cbn [List.filter].
    destruct (is_log c); reflexivity.
Qed.

Lemma identity_of_set_last_used_at v r :
  identity_of (APIKey.set_last_used_at v r) = identity_of r.
Proof. reflexivity. Qed.

Lemma identity_of_revoked now r : identity_of (revoked now r) = identity_of r.
Proof. reflexivity. Qed.

Lemma update_rows_lookup pk f rows i :
  update_rows pk f rows !! i
  = (fun r => if decide (APIKey.id r = pk) then f r else r) <$> rows !! i.
Proof. unfold update_rows. apply list_lookup_fmap. Qed.

Lemma effect_identity s s' i r :
  effect s s' -> api_keys s !! i = Some r ->
  ∃ r', api_keys s' !! i = Some r' ∧ identity_of r' = identity_of r.
Proof.
  intros [-> | r0 Hid -> | pk v -> | r0 now Hr Hnone -> | l ->] Hi;
    cbn [api_keys with_api_keys].
  - by exists r.
  - exists r. split; [|done]. by apply lookup_app_l_Some.
  - rewrite update_rows_lookup, Hi. cbn. eexists. split; [reflexivity|].
    by destruct (decide _).
  - rewrite update_rows_lookup, Hi. cbn. eexists. split; [reflexivity|].
    by destruct (decide _).
  - by exists r.
Qed.

Lemma identity_of_id r r' : identity_of r' = identity_of r -> APIKey.id r' = APIKey.id r.
Proof. unfold identity_of. by intros [= ? _]. Qed.

(** X2. A credential is never deleted and its identity never rewritten:
    after every history of service calls a credential of the store still
    has a row with its id, prefix, digest, label, owner, creation and
    expiry time, and every row that has its id has this identity; only
    [status], [last_used_at] and [revoked_at] can differ.  Nothing is said
    on the place of the row in the table. *)
Theorem credential_identity_is_kept (s : Store) (calls : list call) (r : APIKey.t) :
  primary_keys_ok s -> r ∈ api_keys s ->
  (∃ r', r' ∈ api_keys (run s calls) ∧ identity_of r' = identity_of r)
  ∧ (∀ r', r' ∈ api_keys (run s calls) -> APIKey.id r' = APIKey.id r ->
           identity_of r' = identity_of r).
Proof.
  revert s r. induction calls as [|c calls IH]; intros s r Hok Hr.
  - split; [by exists r|]. intros r' Hr' Hid. destruct Hok as [Hnd _].
    by rewrite (NoDup_fmap_eq APIKey.id (api_keys s) r' r Hnd Hr' Hr Hid).
  - change (run s (c :: calls)) with (run (step s c) calls).
    apply list_elem_of_lookup in Hr as [i Hi].
    destruct (effect_identity _ _ i r (step_effect s c) Hi) as (r1 & Hi1 & E1).
    apply list_elem_of_lookup_2 in Hi1.
    assert (Hok1 : primary_keys_ok (step s c))
      by (eapply effect_primary_keys_ok; [apply step_effect|exact Hok]).
    destruct (IH _ r1 Hok1 Hi1) as ((r' & Hr' & E') & Hall).
    split; [exists r'; split; [exact Hr'|congruence]|].
    intros r2 Hr2 Hid. rewrite <- E1. apply Hall; [exact Hr2|].
    rewrite Hid. symmetry. by apply identity_of_id.
Qed.

Lemma credential_identity_is_kept_witness :
  ∃ r', r' ∈ api_keys (run one_key_store
                         [VerifyKey 11 secret_a; RevokeKey 12 1 42;
                          CreateKey secret_c 13 42 "second"])
        ∧ identity_of r'
          = (1, str_take 8 secret_a, get_api_key_hash secret_a, "first", 42, 10, None).
Proof.
  apply (credential_identity_is_kept one_key_store _
           (APIKey.mk 1 (str_take 8 secret_a) (get_api_key_hash secret_a) "first"
                      ACTIVE None None None 42 10)).
  - split; apply (bool_decide_unpack _); vm_compute; exact I.
  - left.
Defined.

Lemma coherent_set_last_used_at v r : coherent r -> coherent (APIKey.set_last_used_at v r).
Proof. intros Hc. exact Hc. Qed.

Lemma coherent_revoked now r : coherent (revoked now r).
Proof. right. split; [reflexivity|by eexists]. Qed.

Lemma step_coherent s c :
  Forall coherent (api_keys s) -> Forall coherent (api_keys (step s c)).
Proof.
  intros Hall. destruct c; unfold step.
  - unfold store_after. rewrite create_api_key_run. cbn [api_keys].
    apply Forall_app. split; [done|]. apply Forall_singleton. by left.
  - done.
  - unfold store_after. rewrite revoke_api_key_run.
    destruct (filter _ _) as [|k [|k' l]]; try done.
    cbn [api_keys with_api_keys]. apply Forall_update_rows; [|done].
    intros r _. apply coherent_revoked.
  - unfold store_after. rewrite verify_and_update_key_run.
    destruct (filter _ _) as [|k [|k' l]]; try done.
    destruct (verify_api_key _ _); [|done].
    cbn [api_keys with_api_keys]. by apply Forall_update_rows.
  - destruct (get_user_by_api_key_store now api_key s) as [-> | [pk ->]]; [done|].
    cbn [api_keys with_api_keys]. by apply Forall_update_rows.
  - by rewrite get_key_usage_stats_store.
  - done.
Qed.

(** X3. Status and revocation time stay in step: from a store in which
    every credential is either active and never revoked or revoked at
    some time (an empty table for one), every history of service calls
    leads to such a store; no credential is ever EXPIRED there, and a
    credential is REVOKED exactly when its [revoked_at] is set. *)
Theorem status_follows_revoked_at (s : Store) (calls : list call) :
  Forall coherent (api_keys s) ->
  ∀ r, r ∈ api_keys (run s calls) ->
       APIKey.status r ≠ EXPIRED
       ∧ (APIKey.status r = REVOKED <-> APIKey.revoked_at r ≠ None)
       ∧ (APIKey.status r = ACTIVE <-> APIKey.revoked_at r = None).
Proof.
  intros Hall.
  assert (Hrun : Forall coherent (api_keys (run s calls))).
  { revert s Hall. induction calls as [|c calls IH]; intros s Hall; [exact Hall|].
    apply (IH (step s c)). by apply step_coherent. }
  rewrite Forall_forall in Hrun. intros r Hr.
  destruct (Hrun r Hr) as [[Hs Hn] | [Hs [t Ht]]]; rewrite Hs; [rewrite Hn|rewrite Ht];
    repeat split; try done; intros ?; done.
Qed.

Lemma status_follows_revoked_at_witness :
  Forall coherent (api_keys empty_store)
  ∧ Forall (λ r, APIKey.status r ≠ EXPIRED
                 ∧ (APIKey.status r = REVOKED <-> APIKey.revoked_at r ≠ None)
                 ∧ (APIKey.status r = ACTIVE <-> APIKey.revoked_at r = None))
      (api_keys (run empty_store
                   [CreateKey secret_a 10 42 "first"; RevokeKey 12 1 42;
                    CreateKey secret_c 13 42 "second"; VerifyKey 14 secret_c])).
Proof.
  split; [constructor|].
  apply Forall_forall, (status_follows_revoked_at empty_store). constructor.
Defined.

(** X4. Identifiers are never reused: from a store whose primary keys are
    sound, after every history of service calls [create_api_key] gives the
    new credential an id that no stored credential has, and the ids of the
    table stay pairwise distinct. *)
Theorem issued_id_is_fresh (s : Store) (calls : list call) (token : string)
    (now user_id : Z) (name : string) :
  primary_keys_ok s ->
  ∃ k s2,
    APIKeyService.create_api_key token now user_id name (run s calls)
    = Ok ((k, token), s2)
    ∧ (∀ r, r ∈ api_keys (run s calls) -> APIKey.id r ≠ APIKey.id k)
    ∧ NoDup (APIKey.id <$> api_keys s2)
    ∧ primary_keys_ok s2.
Proof.
  intros Hok. pose proof (run_primary_keys_ok calls s Hok) as Hok1.
  pose proof (effect_primary_keys_ok _ _
                (step_effect (run s calls) (CreateKey token now user_id name)) Hok1)
    as Hok2.
  unfold step, store_after in Hok2. rewrite create_api_key_run in *. cbv zeta in *.
  eexists _, _. split; [reflexivity|]. split; [|split; [apply Hok2|exact Hok2]].
  intros r Hr. destruct Hok1 as [_ Hlt]. rewrite Forall_forall in Hlt.
  specialize (Hlt r Hr). cbn. lia.
Qed.

Lemma issued_id_is_fresh_witness :
  ∃ k s2,
    APIKeyService.create_api_key secret_c 30 42 "third"
      (run empty_store [CreateKey secret_a 10 42 "first"; RevokeKey 12 1 42])
    = Ok ((k, secret_c), s2)
    ∧ (∀ r, r ∈ api_keys (run empty_store
                            [CreateKey secret_a 10 42 "first"; RevokeKey 12 1 42]) ->
            APIKey.id r ≠ APIKey.id k)
    ∧ NoDup (APIKey.id <$> api_keys s2)
    ∧ primary_keys_ok s2.
Proof.
  apply (issued_id_is_fresh empty_store). split; [constructor|constructor].
Defined.

(** ** What verification accepts *)

(** X5. [verify_and_update_key] accepts a key only on the evidence of the
    store: when it returns a credential, that credential was stored as
    ACTIVE with the first 8 characters and the SHA-256 digest of the
    presented key, and is returned unchanged but for [last_used_at]; when
    it returns none, it has written nothing. *)
Theorem verify_accepts_only_active_matches (s : Store) (now : Z) (api_key : string) :
  (∀ k s', APIKeyService.verify_and_update_key now api_key s = Ok (Some k, s') ->
     ∃ k0, k0 ∈ api_keys s ∧ APIKey.status k0 = ACTIVE ∧ APIKey.revoked_at k0 = APIKey.revoked_at k
           ∧ secret_of api_key k0
           ∧ k = APIKey.set_last_used_at (Some now) k0)
  ∧ (∀ s', APIKeyService.verify_and_update_key now api_key s = Ok (None, s') -> s' = s).
Proof.
  rewrite verify_and_update_key_run.
  destruct (filter _ _) as [|k0 [|k1 l]] eqn:E.
  - split; [discriminate|]. by intros s' [= <-].
  - apply filter_singleton_elem in E as [Hk0 [Hp Ha]].
    destruct (verify_api_key _ _) eqn:Hv.
    + split; [|discriminate]. intros k s' [= <- <-]. exists k0.
      apply verify_api_key_true in Hv. repeat split; done.
    + split; [discriminate|]. by intros s' [= <-].
  - split; discriminate.
Qed.

Lemma verify_accepts_only_active_matches_witness :
  ∃ k0, k0 ∈ api_keys one_key_store ∧ APIKey.status k0 = ACTIVE
        ∧ secret_of secret_a k0.
Proof.
  destruct (verify_accepts_only_active_matches one_key_store 30 secret_a) as [Hsome _].
  destruct (Hsome (APIKey.mk 1 (str_take 8 secret_a) (get_api_key_hash secret_a) "first"
                             ACTIVE None (Some 30) None 42 10)
                  (store_after (APIKeyService.verify_and_update_key 30 secret_a)
                               one_key_store))
    as (k0 & Hin & Ha & _ & Hs & _); [vm_compute; reflexivity|].
  exists k0. split; [exact Hin|]. split; [exact Ha|exact Hs].
Defined.

(** ** Statistics and the ledger *)

Lemma get_key_usage_stats_run fsum key_id user_id s :
  APIKeyService.get_key_usage_stats fsum key_id user_id s
  = match filter (owned key_id user_id) (api_keys s) with
    | [] => Ok (None, s)
    | [_] => Ok (Some (stats_of fsum (usage_of key_id s)), s)
    | _ => Raise MultipleResultsFound
    end.
Proof.
  unfold APIKeyService.get_key_usage_stats, owned. db_run.
  destruct (filter _ (api_keys s)) as [|k [|k' l]]; try reflexivity.
  unfold scalar_one_or_none. db_run. fold (usage_of key_id s).
  unfold stats_of. destruct (usage_of key_id s); reflexivity.
Qed.

Lemma stats_of_total fsum logs :
  APIKeyUsageStats.total_requests (stats_of fsum logs) = Z.of_nat (length logs).
Proof. by destruct logs. Qed.

Lemma stats_of_successful fsum logs :
  APIKeyUsageStats.successful_requests (stats_of fsum logs)
  = Z.of_nat (length (filter (fun l => APIKeyUsage.status_code l < 400) logs)).
Proof. destruct logs; [reflexivity|]. apply sum_int_ones. Qed.

Lemma stats_of_failed fsum logs :
  APIKeyUsageStats.failed_requests (stats_of fsum logs)
  = Z.of_nat (length logs)
    - Z.of_nat (length (filter (fun l => APIKeyUsage.status_code l < 400) logs)).
Proof.
  destruct logs; [reflexivity|].
  cbn [stats_of APIKeyUsageStats.failed_requests]. by rewrite sum_int_ones.
Qed.

Lemma stats_of_histogram fsum logs :
  APIKeyUsageStats.usage_by_endpoint (stats_of fsum logs)
  = APIKeyService.count_by_endpoint logs.
Proof. by destruct logs. Qed.

Lemma count_by_endpoint_snoc logs log :
  APIKeyService.count_by_endpoint (logs ++ [log])
  = bump (APIKeyService.count_by_endpoint logs) log.
Proof. unfold APIKeyService.count_by_endpoint. by rewrite fold_left_app. Qed.

Lemma owned_selected s key_id user_id k :
  primary_keys_ok s -> k ∈ api_keys s -> owned key_id user_id k ->
  filter (owned key_id user_id) (api_keys s) = [k].
Proof. intros Hok Hk [Hid Hu]. by apply owned_key_selected. Qed.

(** X6. Recording a request shows in the statistics of its credential:
    right after [log_api_key_usage] the total is one more, the successful
    count is one more exactly when the status code is below 400 (the failed
    count otherwise), and the histogram has one more request at the
    recorded endpoint and is unchanged elsewhere. *)
Theorem log_then_stats (fsum : list float -> float) (s : Store) (k : APIKey.t)
    (now key_id user_id : Z) (endpoint method : string) (status_code : Z)
    (response_time : float) (ip_address : string) (user_agent : option string) :
  primary_keys_ok s -> k ∈ api_keys s -> owned key_id user_id k ->
  let s1 := store_after (APIKeyService.log_api_key_usage now key_id endpoint method
                           status_code response_time ip_address user_agent) s in
  ∃ st st1,
    APIKeyService.get_key_usage_stats fsum key_id user_id s = Ok (Some st, s)
    ∧ APIKeyService.get_key_usage_stats fsum key_id user_id s1 = Ok (Some st1, s1)
    ∧ APIKeyUsageStats.total_requests st1 = APIKeyUsageStats.total_requests st + 1
    ∧ APIKeyUsageStats.successful_requests st1
      = APIKeyUsageStats.successful_requests st
        + (if decide (status_code < 400) then 1 else 0)
    ∧ APIKeyUsageStats.failed_requests st1
      = APIKeyUsageStats.failed_requests st
        + (if decide (status_code < 400) then 0 else 1)
    ∧ APIKeyUsageStats.usage_by_endpoint st1
      = <[endpoint := default 0 (APIKeyUsageStats.usage_by_endpoint st !! endpoint) + 1]>
          (APIKeyUsageStats.usage_by_endpoint st).
Proof.
  intros Hok Hk Hown s1.
  set (log := APIKeyUsage.mk (api_key_usage_seq s) endpoint method status_code
                response_time ip_address user_agent key_id now).
  assert (Hs1 : s1 = mkStore (api_keys s) (api_key_usage s ++ [log]) (users s)
                            (api_keys_seq s) (api_key_usage_seq s + 1)) by reflexivity.
  assert (Hlogs : usage_of key_id s1 = (usage_of key_id s ++ [log])%list).
  { rewrite Hs1. unfold usage_of. cbn [api_key_usage].
    by rewrite filter_app, filter_cons_True, filter_nil. }
  eexists _, _. rewrite !get_key_usage_stats_run.
  rewrite (owned_selected s key_id user_id k Hok Hk Hown).
  replace (api_keys s1) with (api_keys s) by (by rewrite Hs1).
  rewrite (owned_selected s key_id user_id k Hok Hk Hown), Hlogs.
  split; [reflexivity|]. split; [reflexivity|].
  rewrite !stats_of_total, !stats_of_successful, !stats_of_failed, !stats_of_histogram.
  rewrite count_by_endpoint_snoc, filter_app, !length_app, filter_cons, filter_nil.
  cbn [APIKeyUsage.status_code log length].
  split; [lia|]. split; [destruct (decide _); cbn [length]; lia|].
  split; [destruct (decide _); cbn [length]; lia|reflexivity].
Qed.

Lemma log_then_stats_witness :
  ∃ st st1,
    APIKeyService.get_key_usage_stats sum_float 1 42 five_log_store
    = Ok (Some st, five_log_store)
    ∧ APIKeyService.get_key_usage_stats sum_float 1 42
        (store_after (APIKeyService.log_api_key_usage 17 1 "/image" "POST" 504
                        0.5%float "10.0.0.3" None) five_log_store)
      = Ok (Some st1,
            store_after (APIKeyService.log_api_key_usage 17 1 "/image" "POST" 504
                           0.5%float "10.0.0.3" None) five_log_store)
    ∧ APIKeyUsageStats.total_requests st1 = APIKeyUsageStats.total_requests st + 1
    ∧ APIKeyUsageStats.successful_requests st1
      = APIKeyUsageStats.successful_requests st + 0
    ∧ APIKeyUsageStats.failed_requests st1 = APIKeyUsageStats.failed_requests st + 1
    ∧ APIKeyUsageStats.usage_by_endpoint st1
      = <["/image" := default 0 (APIKeyUsageStats.usage_by_endpoint st !! "/image") + 1]>
          (APIKeyUsageStats.usage_by_endpoint st).
Proof.
  apply (log_then_stats sum_float five_log_store
           (APIKey.mk 1 (str_take 8 secret_a) (get_api_key_hash secret_a) "first"
                      ACTIVE None (Some 11) None 42 10)).
  - split; apply (bool_decide_unpack _); vm_compute; exact I.
  - vm_compute. left.
  - split; reflexivity.
Defined.

Lemma log_api_key_usage_run now api_key_id endpoint method status_code
    response_time ip_address user_agent s :
  APIKeyService.log_api_key_usage now api_key_id endpoint method status_code
    response_time ip_address user_agent s
  = Ok (tt, mkStore (api_keys s)
                    (api_key_usage s ++
                     [APIKeyUsage.mk (api_key_usage_seq s) endpoint method status_code
                        response_time ip_address user_agent api_key_id now])
                    (users s) (api_keys_seq s) (api_key_usage_seq s + 1)).
Proof. reflexivity. Qed.

Lemma step_usage_of key_id s c :
  ¬ logs_for key_id c -> usage_of key_id (step s c) = usage_of key_id s.
Proof.
  intros Hno. destruct (step_usage s c) as (_ & new & Hn & Hlen).
  destruct c; cbn [is_log] in Hlen;
    try (destruct new; [|discriminate Hlen]; unfold usage_of;
         by rewrite Hn, app_nil_r).
  cbn in Hno. unfold usage_of, step, store_after.
  rewrite log_api_key_usage_run. cbn [api_key_usage].
  rewrite filter_app, filter_cons_False, filter_nil by done. apply app_nil_r.
Qed.

Lemma step_owned key_id user_id s c k :
  primary_keys_ok s -> k ∈ api_keys s -> owned key_id user_id k ->
  ∃ k', k' ∈ api_keys (step s c) ∧ owned key_id user_id k'.
Proof.
  intros Hok Hk [Hid Hu]. apply list_elem_of_lookup in Hk as [i Hi].
  destruct (effect_identity _ _ i k (step_effect s c) Hi) as (k' & Hi' & E).
  exists k'. split; [by eapply list_elem_of_lookup_2|].
  unfold identity_of in E. injection E as E1 _ _ _ E5 _ _. split; congruence.
Qed.

(** X7. The statistics of a credential move only when a request is
    recorded for it: after every history of service calls that holds no
    [log_api_key_usage] for this credential (issuing, listing, verifying,
    revoking this or another credential, recording for another credential)
    [get_key_usage_stats] returns what it returned before; in particular
    the statistics stay available after the credential is revoked. *)
Theorem stats_change_only_by_own_records (fsum : list float -> float) (s : Store)
    (calls : list call) (key_id user_id : Z) (k : APIKey.t) :
  primary_keys_ok s -> k ∈ api_keys s -> owned key_id user_id k ->
  Forall (fun c => ¬ logs_for key_id c) calls ->
  ∃ st,
    APIKeyService.get_key_usage_stats fsum key_id user_id s = Ok (Some st, s)
    ∧ APIKeyService.get_key_usage_stats fsum key_id user_id (run s calls)
      = Ok (Some st, run s calls).
Proof.
  intros Hok Hk Hown Hcalls. exists (stats_of fsum (usage_of key_id s)).
  rewrite !get_key_usage_stats_run, (owned_selected s key_id user_id k Hok Hk Hown).
  split; [reflexivity|].
  revert s k Hok Hk Hown. induction Hcalls as [|c calls Hc Hcalls IH];
    intros s k Hok Hk Hown.
  - cbn. by rewrite (owned_selected s key_id user_id k Hok Hk Hown).
  - change (run s (c :: calls)) with (run (step s c) calls).
    destruct (step_owned key_id user_id s c k Hok Hk Hown) as (k' & Hk' & Hown').
    pose proof (effect_primary_keys_ok _ _ (step_effect s c) Hok) as Hok'.
    rewrite <- (step_usage_of key_id s c Hc). by apply (IH (step s c) k').
Qed.

Lemma stats_change_only_by_own_records_witness :
  ∃ st,
    APIKeyService.get_key_usage_stats sum_float 1 42 five_log_store
    = Ok (Some st, five_log_store)
    ∧ APIKeyService.get_key_usage_stats sum_float 1 42
        (run five_log_store
           [RevokeKey 20 1 42; CreateKey secret_c 21 42 "second";
            LogUsage 22 2 "/summarize" "POST" 200 0.5%float "10.0.0.1" None])
      = Ok (Some st,
            run five_log_store
              [RevokeKey 20 1 42; CreateKey secret_c 21 42 "second";
               LogUsage 22 2 "/summarize" "POST" 200 0.5%float "10.0.0.1" None]).
Proof.
  apply (stats_change_only_by_own_records sum_float five_log_store _ 1 42
           (APIKey.mk 1 (str_take 8 secret_a) (get_api_key_hash secret_a) "first"
                      ACTIVE None (Some 11) None 42 10)).
  - split; apply (bool_decide_unpack _); vm_compute; exact I.
  - vm_compute. left.
  - split; reflexivity.
  - repeat constructor; cbn; try tauto. lia.
Defined.

(** X8. [get_key_usage_stats] answers none exactly when no stored
    credential has the identifier and the owner together, whatever its
    status; the route then raises 404, and an owner cannot read the
    statistics of a credential of another owner. *)
Theorem stats_not_found_iff (fsum : list float -> float) (s : Store)
    (key_id : Z) (current_user : User.t) :
  let user_id := User.id current_user in
  (APIKeyService.get_key_usage_stats fsum key_id user_id s = Ok (None, s)
   <-> ¬ ∃ k, k ∈ api_keys s ∧ owned key_id user_id k)
  ∧ (api_keys.get_api_key_usage fsum key_id current_user s = Raise (HTTPException 404)
     <-> ¬ ∃ k, k ∈ api_keys s ∧ owned key_id user_id k).
Proof.
  intros user_id.
  assert (Hiff : filter (owned key_id user_id) (api_keys s) = []
                 <-> ¬ ∃ k, k ∈ api_keys s ∧ owned key_id user_id k).
  { split.
    - intros E (k & Hk & Hown). by eapply (filter_nil_not_elem_of _ _ k E).
    - intros Hno. apply filter_none. intros k Hk Hown. apply Hno. by exists k. }
  rewrite <- Hiff. unfold api_keys.get_api_key_usage, mbind, DB_bind. fold user_id.
  rewrite get_key_usage_stats_run.
  destruct (filter _ _) as [|k0 [|k1 l]]; split; split; done.
Qed.

(** ** One record: the average is its response time *)

(** Binary64 arithmetic from its specification ([SpecFloat]): dividing by
    1.0 and adding to the start value 0 of a sum are exact. *)
Module Binary64.
Import FloatOps FloatAxioms SpecFloat.

Lemma div_eucl_shift (m : positive) (k q : Z) :
  0 <= k -> q = Z.pos m * 2 ^ k ->
  Z.div_eucl (Z.shiftl (Z.pos m) (52 + k)) 4503599627370496 = (q, 0).
Proof.
  intros Hk ->. rewrite Z.shiftl_mul_pow2 by lia.
  rewrite Z.pow_add_r by lia. change (2 ^ 52) with 4503599627370496.
  pose proof (Z.div_eucl_eq (Z.pos m * (4503599627370496 * 2 ^ k)) 4503599627370496) as E.
  pose proof (Z.mod_pos_bound (Z.pos m * (4503599627370496 * 2 ^ k)) 4503599627370496) as B.
  unfold Z.modulo in B.
  destruct (Z.div_eucl _ _) as [q r]. specialize (E ltac:(lia)). specialize (B ltac:(lia)).
  assert (r = 0 ∧ q = Z.pos m * 2 ^ k) as [-> ->]; [|reflexivity].
  assert (Hp : 0 <= 2 ^ k) by (apply Z.pow_nonneg; lia).
  nia.
Qed.

Lemma round_exact (sign : bool) (m : positive) (e : Z) :
  Z.max (Z.pos (digits2_pos m) + e - 53) (-1074) = e -> e <= 971 ->
  binary_round_aux prec emax sign (Z.pos m) e loc_Exact = S754_finite sign m e.
Proof.
  intros Hc Hb. unfold binary_round_aux, shr_fexp, fexp, emin.
  change prec with 53. change emax with 1024.
  change (Zdigits2 (Z.pos m)) with (Z.pos (digits2_pos m)).
  change (3 - 1024 - 53) with (-1074). rewrite Hc, Z.sub_diag.
  cbn [shr shr_record_of_loc shr_m loc_of_shr_record round_nearest_even].
  change (Zdigits2 (Z.pos m)) with (Z.pos (digits2_pos m)).
  rewrite Hc, Z.sub_diag. cbn [shr shr_record_of_loc shr_m].
  replace (e <=? 1024 - 53) with true by (symmetry; apply Z.leb_le; lia).
  reflexivity.
Qed.

Lemma SF64div_one (X : spec_float) :
  SpecFloat.valid_binary prec emax X = true ->
  SF64div X (S754_finite false 4503599627370496 (-52)) = X.
Proof.
  destruct X as [sign|sign| |sign m e]; intros Hv.
  - destruct sign; reflexivity.
  - destruct sign; reflexivity.
  - reflexivity.
  - cbn in Hv. unfold bounded, canonical_mantissa, fexp, emin in Hv.
    apply andb_prop in Hv as [Hc Hb]. apply Z.eqb_eq in Hc. apply Z.leb_le in Hb.
    change prec with 53 in *. change emax with 1024 in *.
    change (3 - 1024 - 53) with (-1074) in Hc. change (1024 - 53) with 971 in Hb.
    pose proof (round_exact (xorb sign false) m e Hc Hb) as Hround.
    set (d := Z.pos (digits2_pos m)) in *.
    assert (Hd : 0 < d) by (unfold d; lia).
    unfold SF64div, SFdiv, SFdiv_core_binary.
    change (Zdigits2 (Z.pos m)) with d. change (Zdigits2 4503599627370496) with 53.
    unfold fexp, emin. change prec with 53. change emax with 1024.
    change (3 - 1024 - 53) with (-1074).
    rewrite xorb_false_r in *.
    assert (Hcase : (d = 53 ∧ -1074 < e) ∨ (e = -1074 ∧ d <= 53)) by lia.
    destruct Hcase as [[Hd53 He] | [He Hd53]].
    + replace (Z.min (Z.max (d + e - (53 + -52) - 53) (-1074)) (e - -52))
        with (e - 1) by lia.
      replace (e - -52 - (e - 1)) with (52 + 1) by lia.
      change (match 52 + 1 with
              | 0 => Z.pos m
              | Z.pos _ => Z.shiftl (Z.pos m) (52 + 1)
              | Z.neg _ => 0
              end) with (Z.shiftl (Z.pos m) (52 + 1)).
      rewrite (div_eucl_shift m 1 (Z.pos m~0)) by lia.
      change (new_location 4503599627370496 0) with loc_Exact.
      unfold binary_round_aux, shr_fexp, fexp, emin.
      change prec with 53. change emax with 1024. change (3 - 1024 - 53) with (-1074).
      change (Zdigits2 (Z.pos m~0)) with (Z.pos (Pos.succ (digits2_pos m))).
      rewrite Pos2Z.inj_succ. fold d.
      replace (Z.max (Z.succ d + (e - 1) - 53) (-1074) - (e - 1)) with 1 by lia.
      cbn [shr shr_record_of_loc iter_pos shr_1 orb shr_m loc_of_shr_record
           round_nearest_even].
      replace (e - 1 + 1) with e by lia.
      change (Zdigits2 (Z.pos m)) with d.
      rewrite Hc, Z.sub_diag. cbn [shr shr_m].
      replace (e <=? 1024 - 53) with true by (symmetry; apply Z.leb_le; lia).
      reflexivity.
    + replace (Z.min (Z.max (d + e - (53 + -52) - 53) (-1074)) (e - -52)) with e by lia.
      replace (e - -52 - e) with (52 + 0) by lia.
      change (match 52 + 0 with
              | 0 => Z.pos m
              | Z.pos _ => Z.shiftl (Z.pos m) (52 + 0)
              | Z.neg _ => 0
              end) with (Z.shiftl (Z.pos m) (52 + 0)).
      rewrite (div_eucl_shift m 0 (Z.pos m)) by lia.
      change (new_location 4503599627370496 0) with loc_Exact.
      exact Hround.
Qed.

Lemma div_one (x : float) : (x / 1)%float = x.
Proof.
  apply Prim2SF_inj. rewrite div_spec.
  change (Prim2SF 1) with (S754_finite false 4503599627370496 (-52)).
  apply SF64div_one, Prim2SF_valid.
Qed.

Lemma zero_add (x : float) : x ≠ (-0)%float -> (0 + x)%float = x.
Proof.
  intros Hx. apply Prim2SF_inj. rewrite add_spec.
  change (Prim2SF 0) with (S754_zero false).
  destruct (Prim2SF x) as [[|]|[|]| |sign m e] eqn:E; try reflexivity.
  exfalso. apply Hx. apply Prim2SF_inj. rewrite E. reflexivity.
Qed.

End Binary64.

Lemma sum_of_one (fsum : list float -> float) (x : float) :
  fsum = sum_float ∨ fsum = sum_float_compensated -> fsum [x] = (0 + x)%float.
Proof. intros [-> | ->]; reflexivity. Qed.

(** X25. A credential with exactly one usage record: the reported average
    is that record's response time itself, bit for bit, under either
    summation of the interpreter (the sum is 0.0 + x and the divisor 1.0;
    both operations are exact in binary64).  Only the negative zero is
    not kept: the start value 0 of the sum turns it into the positive
    zero. *)
Theorem single_record_average (fsum : list float -> float) (s : Store)
    (key_id user_id : Z) (k : APIKey.t) (l : APIKeyUsage.t) :
  primary_keys_ok s -> k ∈ api_keys s -> owned key_id user_id k ->
  usage_of key_id s = [l] ->
  fsum = sum_float ∨ fsum = sum_float_compensated ->
  ∃ st,
    APIKeyService.get_key_usage_stats fsum key_id user_id s = Ok (Some st, s)
    ∧ APIKeyUsageStats.total_requests st = 1
    ∧ (APIKeyUsage.response_time l ≠ (-0)%float ->
       APIKeyUsageStats.average_response_time st = APIKeyUsage.response_time l)
    ∧ (APIKeyUsage.response_time l = (-0)%float ->
       APIKeyUsageStats.average_response_time st = 0%float).
Proof.
  intros Hok Hk Hown Hlogs Hsum.
  rewrite get_key_usage_stats_run, (owned_selected s key_id user_id k Hok Hk Hown).
  eexists. split; [reflexivity|]. rewrite Hlogs. unfold stats_of.
  cbn [APIKeyUsageStats.total_requests APIKeyUsageStats.average_response_time
       length fmap list_fmap].
  split; [reflexivity|].
  rewrite (sum_of_one fsum _ Hsum).
  replace (float_of_int (Z.of_nat 1)) with 1%float by (vm_compute; reflexivity).
  rewrite Binary64.div_one. split.
  - apply Binary64.zero_add.
  - intros ->. vm_compute. reflexivity.
Qed.

Lemma single_record_average_witness :
  ∃ st,
    APIKeyService.get_key_usage_stats sum_float_compensated 1 42 scenario_store
    = Ok (Some st, scenario_store)
    ∧ APIKeyUsageStats.total_requests st = 1
    ∧ APIKeyUsageStats.average_response_time st = 0x1.ae147ae147ae1p-2%float.
Proof.
  destruct (single_record_average sum_float_compensated scenario_store 1 42
              (APIKey.mk 1 (str_take 8 secret_a) (get_api_key_hash secret_a) "ci-bot"
                         ACTIVE None (Some 11) None 42 10)
              (APIKeyUsage.mk 1 "/summarize" "POST" 200 0x1.ae147ae147ae1p-2%float
                              "10.0.0.1" (Some "curl/8.0") 1 12))
    as (st & Hrun & Ht & Hm & _).
  - split; apply (bool_decide_unpack _); vm_compute; exact I.
  - vm_compute. left.
  - split; reflexivity.
  - vm_compute. reflexivity.
  - by right.
  - exists st. split; [exact Hrun|]. split; [exact Ht|].
    apply Hm. intros E. apply (f_equal PrimFloat.is_zero) in E.
    vm_compute in E. discriminate.
Defined.

(** ** Listing after issuance and revocation *)


Lemma filter_update_rows_other (P : APIKey.t -> Prop) `{!∀ x, Decision (P x)}
    pk f rows :
  (∀ r, r ∈ rows -> APIKey.id r = pk -> ¬ P r ∧ ¬ P (f r)) ->
  filter P (update_rows pk f rows) = filter P rows.
Proof.
  unfold update_rows. induction rows as [|r rows IH]; intros Hf; [reflexivity|].
  cbn [map]. rewrite !filter_cons, IH by (intros r' Hr'; apply Hf; by right).
  destruct (decide (APIKey.id r = pk)) as [Heq|Hne]; [|reflexivity].
  destruct (Hf r (list_elem_of_here _ _) Heq) as [H1 H2]. by rewrite !decide_False.
Qed.

(** X10. A revoked credential leaves its owner's list and nothing else
    moves: after a successful [revoke_api_key] the list of the owner is
    the list before without the credential of that id, and the list of
    every other owner is unchanged. *)
Theorem revoked_key_is_unlisted (s s1 : Store) (now key_id user_id other : Z)
    (k : APIKey.t) :
  primary_keys_ok s ->
  APIKeyService.revoke_api_key now key_id user_id s = Ok (Some k, s1) ->
  ∃ keys others,
    APIKeyService.get_user_api_keys user_id s = Ok (keys, s)
    ∧ APIKeyService.get_user_api_keys user_id s1
      = Ok (filter (fun r => APIKey.id r ≠ key_id) keys, s1)
    ∧ (∃ k0, k0 ∈ keys ∧ APIKey.id k0 = key_id)
    ∧ APIKeyService.get_user_api_keys other s = Ok (others, s)
    ∧ (other ≠ user_id ->
       APIKeyService.get_user_api_keys other s1 = Ok (others, s1)).
Proof.
  intros [Hnd Hlt]. rewrite revoke_api_key_run.
  destruct (filter _ _) as [|k0 [|k' l]] eqn:E; try discriminate.
  intros [= <- <-]. apply filter_singleton_elem in E as [Hk0 (Hid & Hu & Hnone)].
  rewrite !get_user_api_keys_run. cbn [api_keys with_api_keys].
  eexists _, _. split; [reflexivity|]. split; [|split; [|split; [reflexivity|]]].
  - f_equal. f_equal. rewrite list_filter_filter. unfold update_rows.
    clear Hk0 Hlt. induction (api_keys s) as [|r rows IH]; [reflexivity|].
    cbn [fmap list_fmap map] in *. apply NoDup_cons in Hnd as [Hr Hnd].
    rewrite !filter_cons. destruct (decide (APIKey.id r = APIKey.id k0)) as [Heq|Hne].
    + rewrite decide_False by (cbn; intros [_ ?]; done).
      rewrite decide_False by (intros [? _]; congruence).
      by apply IH.
    + rewrite (IH Hnd).
      destruct (decide (APIKey.user_id r = user_id ∧ APIKey.revoked_at r = None))
        as [Hp|Hp].
      * by rewrite decide_True by (split; [congruence|exact Hp]).
      * by rewrite decide_False by tauto.
  - exists k0. split; [|exact Hid]. apply list_elem_of_filter. by repeat split.
  - intros Hne. f_equal. f_equal. apply filter_update_rows_other.
    intros r Hin Hr. cbn. split; [|intros [_ ?]; done].
    intros [Hru _]. apply Hne.
    rewrite <- Hru, <- Hu. f_equal.
    by apply (NoDup_fmap_eq APIKey.id (api_keys s)).
Qed.

Lemma revoked_key_is_unlisted_witness :
  ∃ keys others,
    APIKeyService.get_user_api_keys 42 two_key_store = Ok (keys, two_key_store)
    ∧ APIKeyService.get_user_api_keys 42
        (store_after (APIKeyService.revoke_api_key 30 1 42) two_key_store)
      = Ok (filter (fun r => APIKey.id r ≠ 1) keys,
            store_after (APIKeyService.revoke_api_key 30 1 42) two_key_store)
    ∧ (∃ k0, k0 ∈ keys ∧ APIKey.id k0 = 1)
    ∧ APIKeyService.get_user_api_keys 7 two_key_store = Ok (others, two_key_store)
    ∧ (7 ≠ 42 ->
       APIKeyService.get_user_api_keys 7
         (store_after (APIKeyService.revoke_api_key 30 1 42) two_key_store)
       = Ok (others, store_after (APIKeyService.revoke_api_key 30 1 42) two_key_store)).
Proof.
  apply (revoked_key_is_unlisted two_key_store _ 30 1 42 7
           (revoked 30 (APIKey.mk 1 (str_take 8 secret_a) (get_api_key_hash secret_a)
                          "first" ACTIVE None None None 42 10))).
  - split; apply (bool_decide_unpack _); vm_compute; exact I.
  - vm_compute. reflexivity.
Defined.

(** ** The second way from a key to its user *)

Lemma get_user_by_api_key_run now api_key s :
  APIKeyService.get_user_by_api_key now api_key s
  = match filter (fun k => APIKey.key_hash k = get_api_key_hash api_key
                           ∧ APIKey.key_prefix k = str_take 8 api_key
                           ∧ APIKey.revoked_at k = None) (api_keys s) with
    | [] => Ok (None, s)
    | [k] =>
        let s' := with_api_keys (update_rows (APIKey.id k)
                                   (APIKey.set_last_used_at (Some now)) (api_keys s)) s in
        match filter (fun u => User.id u = APIKey.user_id k) (users s) with
        | [] => Ok (None, s')
        | [u] => Ok (Some u, s')
        | _ => Raise MultipleResultsFound
        end
    | _ => Raise MultipleResultsFound
    end.
Proof.
  unfold APIKeyService.get_user_by_api_key. db_run.
  destruct (filter _ (api_keys s)) as [|k [|k' l]]; try reflexivity.
  unfold scalar_one_or_none. db_run.
  destruct (filter _ (users s)) as [|u [|u' l]]; reflexivity.
Qed.

(** X11. [get_user_by_api_key] resolves a key only to the owner of a
    stored credential that carries the digest and the first 8 characters
    of the key and was never revoked; the user it returns is a row of the
    users table with the owner's id, and the only thing written is
    [last_used_at] of that credential.  It does not consult [status]. *)
Theorem user_by_key_is_owner_of_unrevoked (s s' : Store) (now : Z)
    (api_key : string) (u : User.t) :
  APIKeyService.get_user_by_api_key now api_key s = Ok (Some u, s') ->
  ∃ k, k ∈ api_keys s ∧ secret_of api_key k ∧ APIKey.revoked_at k = None
       ∧ APIKey.user_id k = User.id u ∧ u ∈ users s
       ∧ s' = with_api_keys (update_rows (APIKey.id k)
                               (APIKey.set_last_used_at (Some now)) (api_keys s)) s.
Proof.
  rewrite get_user_by_api_key_run.
  destruct (filter _ (api_keys s)) as [|k [|k' l]] eqn:E; try discriminate.
  cbv zeta. destruct (filter _ (users s)) as [|u0 [|u' l]] eqn:Eu; try discriminate.
  intros [= <- <-].
  apply filter_singleton_elem in E as [Hk (Hh & Hp & Hn)].
  apply filter_singleton_elem in Eu as [Hu Hid].
  exists k. by repeat split.
Qed.

Lemma user_by_key_is_owner_of_unrevoked_witness :
  ∃ k, k ∈ api_keys shared_prefix_store ∧ secret_of secret_b k
       ∧ APIKey.revoked_at k = None ∧ APIKey.user_id k = User.id owner42.
Proof.
  destruct (user_by_key_is_owner_of_unrevoked shared_prefix_store
              (store_after (APIKeyService.get_user_by_api_key 30 secret_b)
                           shared_prefix_store) 30 secret_b owner42)
    as (k & Hk & Hs & Hn & Hu & _); [vm_compute; reflexivity|].
  exists k. split; [exact Hk|]. split; [exact Hs|]. split; [exact Hn|exact Hu].
Defined.

(** X12. [get_user_by_api_key] resolves a fresh secret to its owner
    whether or not another credential shares its first 8 characters: when
    no unrevoked stored credential already has the digest of the new token
    and the owner is one row of the users table, the call right after
    [create_api_key] returns that owner. *)
Theorem user_by_key_after_issue (s : Store) (token : string) (now now' : Z)
    (name : string) (u : User.t) :
  (∀ k, k ∈ api_keys s -> APIKey.revoked_at k = None ->
        APIKey.key_hash k ≠ get_api_key_hash token) ->
  filter (fun x => User.id x = User.id u) (users s) = [u] ->
  ∃ k s1 s2,
    APIKeyService.create_api_key token now (User.id u) name s = Ok ((k, token), s1)
    ∧ APIKeyService.get_user_by_api_key now' token s1 = Ok (Some u, s2).
Proof.
  intros Hfresh Hu. rewrite create_api_key_run. cbv zeta.
  eexists _, _, _. split; [reflexivity|].
  rewrite get_user_by_api_key_run. cbn [api_keys users].
  rewrite filter_app, (filter_none _ (api_keys s)).
  2:{ intros k Hk (Hh & _ & Hn). by apply (Hfresh k). }
  rewrite filter_cons_True, filter_nil by done.
  cbn [app APIKey.user_id APIKey.id]. rewrite Hu. reflexivity.
Qed.

Lemma user_by_key_after_issue_witness :
  str_take 8 secret_b = str_take 8 secret_a
  ∧ ∃ k s1 s2,
      APIKeyService.create_api_key secret_b 20 (User.id owner42) "second" one_key_store
      = Ok ((k, secret_b), s1)
      ∧ APIKeyService.get_user_by_api_key 30 secret_b s1 = Ok (Some owner42, s2).
Proof.
  split; [reflexivity|].
  apply (user_by_key_after_issue one_key_store secret_b 20 30 "second" owner42).
  - intros k Hk _. apply list_elem_of_singleton in Hk as ->. vm_compute. discriminate.
  - reflexivity.
Defined.

(** ** The gate of the tool routes *)


(** X13. The gate of the tool routes admits a request only for a stored
    credential: when [get_current_user_by_api_key] returns a user and a
    key id, the store held an ACTIVE credential of that id with the first
    8 characters and the digest of the presented key, the user is the row
    of the users table that owns it, and the only write is
    [last_used_at] of that credential. *)
Theorem gate_admits_only_owner_of_active_key (s s1 : Store) (now : Z)
    (api_key : string) (u : User.t) (key_id : Z) :
  utils.get_current_user_by_api_key now api_key s = (Ok (u, key_id), s1) ->
  ∃ k, k ∈ api_keys s ∧ APIKey.status k = ACTIVE ∧ secret_of api_key k
       ∧ APIKey.id k = key_id ∧ APIKey.user_id k = User.id u ∧ u ∈ users s
       ∧ s1 = with_api_keys (update_rows key_id (APIKey.set_last_used_at (Some now))
                               (api_keys s)) s.
Proof.
  rewrite gate_run.
  destruct (filter _ (api_keys s)) as [|k [|k' l]] eqn:E; try discriminate.
  destruct (verify_api_key _ _) eqn:Hv; [|discriminate]. cbv zeta.
  destruct (filter _ (users s)) as [|u0 [|u' l]] eqn:Eu; try discriminate.
  intros [= <- <- <-].
  apply filter_singleton_elem in E as [Hk [Hp Ha]].
  apply filter_singleton_elem in Eu as [Hu Hid].
  apply verify_api_key_true in Hv. exists k. repeat split; done.
Qed.

Lemma gate_admits_only_owner_of_active_key_witness :
  ∃ k, k ∈ api_keys one_key_store ∧ APIKey.status k = ACTIVE ∧ secret_of secret_a k
       ∧ APIKey.id k = 1 ∧ APIKey.user_id k = User.id owner42.
Proof.
  destruct (gate_admits_only_owner_of_active_key one_key_store
              (snd (utils.get_current_user_by_api_key 30 secret_a one_key_store))
              30 secret_a owner42 1)
    as (k & Hk & Ha & Hs & Hid & Hu & _); [vm_compute; reflexivity|].
  exists k. repeat split; try done; apply Hs.
Defined.

(** X14. A request the gate rejects never reaches the handler and leaves
    no trace in the ledger: whenever [get_current_user_by_api_key] raises,
    the request is answered with that exception, which is 401 or the
    lookup's [MultipleResultsFound], and the usage table is as before; when
    no active credential has the key's prefix, or the digest differs,
    nothing at all is written. *)
Theorem rejected_request_is_not_recorded {B} (s s1 : Store) (now : Z)
    (api_key : string) (handler : User.t * Z -> Handler B) (e : exn) :
  utils.get_current_user_by_api_key now api_key s = (Raise e, s1) ->
  depends (utils.get_current_user_by_api_key now api_key) handler s = (Raise e, s1)
  ∧ (e = HTTPException 401 ∨ e = MultipleResultsFound)
  ∧ api_key_usage s1 = api_key_usage s
  ∧ (APIKeyService.verify_and_update_key now api_key s = Ok (None, s) -> s1 = s).
Proof.
  intros Hgate. unfold depends. rewrite Hgate. split; [reflexivity|].
  revert Hgate. rewrite gate_run, verify_and_update_key_run.
  destruct (filter _ (api_keys s)) as [|k [|k' l]].
  - intros [= <- <-]; repeat split; try (by left); try (by right); try discriminate.
  - destruct (verify_api_key _ _).
    + cbv zeta. destruct (filter _ (users s)) as [|u0 [|u' l]]; intros [= <- <-];
        repeat split; try (by left); try (by right); try discriminate.
    + intros [= <- <-]; repeat split; try (by left); try (by right); try discriminate.
  - intros [= <- <-]; repeat split; try (by left); try (by right); try discriminate.
Qed.

Lemma rejected_request_is_not_recorded_witness :
  depends (utils.get_current_user_by_api_key 30 secret_c)
          (text_summarizer.summarize_text 1%float 2%float 31 "10.0.0.1" None
             (Returned (SummarizeResponse.mk "short" None))) five_log_store
  = (Raise (HTTPException 401), five_log_store)
  ∧ api_key_usage five_log_store = api_key_usage five_log_store.
Proof.
  destruct (rejected_request_is_not_recorded five_log_store five_log_store 30 secret_c
              (text_summarizer.summarize_text 1%float 2%float 31 "10.0.0.1" None
                 (Returned (SummarizeResponse.mk "short" None)))
              (HTTPException 401))
    as (Hreq & _ & Hu & _); [vm_compute; reflexivity|].
  split; [exact Hreq|exact Hu].
Defined.

(** ** The tool routes and the ledger *)

(** X15. The text routes write one usage record for every call of
    their function, whatever the end of the [try] body, and nothing else:
    with status 200 and the response when the service returned, 422 with
    the [HTTPException] 422 for the service's own exception, 500 with the
    [HTTPException] 500 for any other [Exception].  When the body ends by
    [CancelledError] the record says 200 although the exception passes and
    no answer is given.  When the limiter refuses the call, the answer is
    429 and no record is written. *)
Theorem text_routes_record_their_answer (s : Store) (start_time end_time : float)
    (now : Z) (client_host : string) (user_agent : option string)
    (current_user : User.t) (api_key_id : Z) :
  let recorded endpoint status_code :=
    mkStore (api_keys s)
            (api_key_usage s ++
             [APIKeyUsage.mk (api_key_usage_seq s) endpoint "POST" status_code
                (end_time - start_time)%float client_host user_agent api_key_id now])
            (users s) (api_keys_seq s) (api_key_usage_seq s + 1) in
  let summarize body_run :=
    text_summarizer.summarize_text start_time end_time now client_host user_agent
      body_run (current_user, api_key_id) in
  let paraphrase body_run :=
    text_paraphraser.paraphrase_text start_time end_time now client_host user_agent
      body_run (current_user, api_key_id) in
  ((∀ r, summarize (Returned r) s = (Ok r, recorded "/summarize" 200))
   ∧ summarize ServiceException s = (Raise (HTTPException 422), recorded "/summarize" 422)
   ∧ summarize OtherException s = (Raise (HTTPException 500), recorded "/summarize" 500)
   ∧ summarize Cancelled s = (Raise CancelledError, recorded "/summarize" 200)
   ∧ ∀ body_run, limiter.limit (Raise (HTTPException 429)) true (summarize body_run) s
                 = (Raise (HTTPException 429), s))
  ∧ ((∀ r, paraphrase (Returned r) s = (Ok r, recorded "/paraphrase" 200))
     ∧ paraphrase ServiceException s
       = (Raise (HTTPException 422), recorded "/paraphrase" 422)
     ∧ paraphrase OtherException s
       = (Raise (HTTPException 500), recorded "/paraphrase" 500)
     ∧ paraphrase Cancelled s = (Raise CancelledError, recorded "/paraphrase" 200)
     ∧ ∀ body_run, limiter.limit (Raise (HTTPException 429)) true (paraphrase body_run) s
                   = (Raise (HTTPException 429), s)).
Proof. intros recorded summarize paraphrase. repeat split. Qed.





(** ** The image route *)

(** X17. The image route answers 500 where it means 415 and 413: for a
    form request with valid mode and detail level, an upload whose content
    type is not allowed or whose content exceeds [MAX_FILE_SIZE], and also
    an empty [image_url] without a file, is answered with the
    [HTTPException] 500 of the last [except] clause and recorded with
    status 500, whatever the analyzer would have done. *)
Theorem image_upload_rejections_answer_500 (s : Store) (start_time end_time : float)
    (now : Z) (request : ImageRequest.t) (run : analysis_run)
    (current_user : User.t) (api_key_id : Z)
    (mode_enum : ImageAnalysisMode) (detail_level_enum : DetailLevel) :
  str_contains "application/json" (default "" (ImageRequest.content_type request))
  = false ->
  ImageAnalysisMode_of (of_optional_str (ImageRequest.mode request)) = Some mode_enum ->
  DetailLevel_of (of_optional_str (ImageRequest.detail_level request))
  = Some detail_level_enum ->
  (ImageRequest.image_url request = None
   ∧ ∃ f, ImageRequest.image_file request = Some f
          ∧ (UploadFile.content_type f ∉ Some <$> image_to_text.ALLOWED_MIME_TYPES
             ∨ image_to_text.MAX_FILE_SIZE < Z.of_nat (length (UploadFile.content f))))
  ∨ (ImageRequest.image_url request = Some ""
     ∧ ImageRequest.image_file request = None) ->
  image_to_text.image_to_text start_time end_time now request run
    (current_user, api_key_id) s
  = (RaisesHTTP 500,
     mkStore (api_keys s)
             (api_key_usage s ++
              [APIKeyUsage.mk (api_key_usage_seq s) "/image-to-text" "POST" 500
                 (end_time - start_time)%float (ImageRequest.client_host request)
                 (ImageRequest.user_agent request) api_key_id now])
             (users s) (api_keys_seq s) (api_key_usage_seq s + 1)).
Proof.
  intros Hct Hm Hd Hcase.
  unfold image_to_text.image_to_text, image_to_text.read_request.
  rewrite Hct, Hm, Hd.
  destruct Hcase as [(Hurl & f & Hf & Hbad) | (Hurl & Hf)]; rewrite Hurl, Hf;
    cbn [of_optional_str orb andb negb];
    unfold image_to_text.try_block; cbn [truthy String.eqb negb]; [|reflexivity].
  destruct Hbad as [Hty | Hsize].
  - rewrite bool_decide_eq_false_2 by exact Hty. reflexivity.
  - destruct (bool_decide _); [|reflexivity].
    apply Z.ltb_lt in Hsize. rewrite Hsize. reflexivity.
Qed.

Lemma image_upload_rejections_answer_500_witness :
  ∃ s1,
    image_to_text.image_to_text 1%float 1.5%float 40
      (ImageRequest.mk (Some "multipart/form-data; boundary=x") None None
         (Some (UploadFile.mk (Some "application/pdf") [37; 80; 68; 70]))
         (Some "description") (Some "standard") "10.0.0.1" None)
      (Analysed (ImageToTextResponse.mk "a page" None)) (owner42, 1) one_key_store
    = (RaisesHTTP 500, s1)
    ∧ APIKeyUsage.status_code <$> api_key_usage s1 = [500].
Proof.
  eexists. split.
  - apply (image_upload_rejections_answer_500 one_key_store 1%float 1.5%float 40 _ _
             owner42 1 DESCRIPTION STANDARD); try reflexivity.
    left. split; [reflexivity|]. eexists. split; [reflexivity|]. left.
    apply (bool_decide_unpack _). vm_compute. exact I.
  - reflexivity.
Defined.

(** X18. The image route records a request exactly when it reaches the
    [try] block.  A call the limiter refuses (429), the 422 or the 400 of
    the function's own checks and an exception of reading the JSON body
    leave the store as it was.  Every other call comes with exactly one
    new usage record of the verified credential: for a response with
    status 200, for an [HTTPException] raised by the [except] clauses with
    its status 422, 504 or 500, and for the [CancelledError] that passes
    them with status 200 although no answer is given. *)
Theorem image_route_records_what_it_tries (s : Store) (start_time end_time : float)
    (now : Z) (request : ImageRequest.t) (run : analysis_run)
    (current_user : User.t) (api_key_id : Z) (exceeded : bool) :
  let recorded status_code :=
    mkStore (api_keys s)
            (api_key_usage s ++
             [APIKeyUsage.mk (api_key_usage_seq s) "/image-to-text" "POST" status_code
                (end_time - start_time)%float (ImageRequest.client_host request)
                (ImageRequest.user_agent request) api_key_id now])
            (users s) (api_keys_seq s) (api_key_usage_seq s + 1) in
  ∃ a s1,
    limiter.limit (RaisesHTTP 429) exceeded
      (image_to_text.image_to_text start_time end_time now request run
         (current_user, api_key_id)) s = (a, s1)
    ∧ ((s1 = s
        ∧ (a = RaisesHTTP 429 ∧ exceeded = true
           ∨ exceeded = false
             ∧ (a = RaisesHTTP 422 ∨ a = JSONResponse 400 ∨ a = RaisesUncaught)))
       ∨ (exceeded = false
          ∧ ((∃ response, a = Analysis response ∧ s1 = recorded 200)
             ∨ (a = RaisesHTTP 422 ∧ s1 = recorded 422)
             ∨ (a = RaisesHTTP 504 ∧ s1 = recorded 504)
             ∨ (a = RaisesHTTP 500 ∧ s1 = recorded 500)
             ∨ (a = RaisesUncaught ∧ run = RaisedCancelledError
                ∧ s1 = recorded 200)))).
Proof.
  intros recorded. unfold limiter.limit. destruct exceeded.
  { eexists _, _. split; [reflexivity|]. left. split; [reflexivity|]. by left. }
  unfold image_to_text.image_to_text.
  destruct (image_to_text.read_request request)
    as [a | [[[image_url image_file] m] d]] eqn:Hread.
  - eexists _, _. split; [reflexivity|]. left. split; [reflexivity|].
    right. split; [reflexivity|].
    unfold image_to_text.read_request in Hread.
    destruct (str_contains _ _).
    + destruct (ImageRequest.json_body request) as [[]|]; try (injection Hread as <-; tauto).
      destruct (negb _); [injection Hread as <-; tauto|].
      destruct (ImageAnalysisMode_of _); [destruct (DetailLevel_of _)|];
        try discriminate; injection Hread as <-; tauto.
    + destruct (ImageAnalysisMode_of _); [destruct (DetailLevel_of _)|];
        try discriminate; injection Hread as <-; tauto.
  - destruct (_ || _).
    + eexists _, _. split; [reflexivity|]. left. split; [reflexivity|].
      right. split; [reflexivity|tauto].
    + unfold image_to_text.try_block.
      destruct (if truthy image_url then run else _) as [r| | | |] eqn:Hbody;
        eexists _, _; (split; [reflexivity|]); right; (split; [reflexivity|]).
      * left. by exists r.
      * right. left. by split.
      * right. right. left. by split.
      * right. right. right. left. by split.
      * right. right. right. right. split; [reflexivity|]. split; [|reflexivity].
        destruct (truthy image_url); [exact Hbody|].
        destruct image_file as [f|]; [|discriminate].
        destruct (bool_decide _); [|discriminate].
        destruct (_ <? _); [discriminate|exact Hbody].
Qed.

(** X19. What the image route rejects by its own checks is not recorded:
    a form request with an unknown mode or detail level is answered 422, a
    form request with neither or both of [image_url] and [image_file] gets
    the [JSONResponse] 400, a JSON request whose object has no true
    [image_url] is answered 422 -- each time with the store as it was,
    although the credential has been verified. *)
Theorem image_checks_reject_unrecorded (s : Store) (start_time end_time : float)
    (now : Z) (request : ImageRequest.t) (run : analysis_run)
    (auth_data : User.t * Z) :
  let is_json :=
    str_contains "application/json" (default "" (ImageRequest.content_type request)) in
  let mode_enum := ImageAnalysisMode_of (of_optional_str (ImageRequest.mode request)) in
  let detail_level_enum :=
    DetailLevel_of (of_optional_str (ImageRequest.detail_level request)) in
  let answer :=
    image_to_text.image_to_text start_time end_time now request run auth_data s in
  (is_json = false -> mode_enum = None ∨ detail_level_enum = None ->
   answer = (RaisesHTTP 422, s))
  ∧ (is_json = false -> is_Some mode_enum -> is_Some detail_level_enum ->
     (ImageRequest.image_url request = None ∧ ImageRequest.image_file request = None)
     ∨ (is_Some (ImageRequest.image_url request)
        ∧ is_Some (ImageRequest.image_file request)) ->
     answer = (JSONResponse 400, s))
  ∧ (is_json = true ->
     ∀ members, ImageRequest.json_body request = Some (JObject members) ->
       truthy (default JNull (dict_get "image_url" members)) = false ->
       answer = (RaisesHTTP 422, s)).
Proof.
  intros is_json mode_enum detail_level_enum answer.
  subst answer. destruct auth_data as [current_user api_key_id].
  unfold image_to_text.image_to_text, image_to_text.read_request.
  fold is_json mode_enum detail_level_enum.
  split; [|split].
  - intros -> [-> | ->]; [reflexivity|]. by destruct mode_enum.
  - intros -> [m ->] [d ->] [[-> ->] | [[u ->] [f ->]]]; reflexivity.
  - intros -> members -> ->. reflexivity.
Qed.

Lemma image_checks_reject_unrecorded_witness :
  image_to_text.image_to_text 1%float 1.5%float 40
    (ImageRequest.mk (Some "multipart/form-data; boundary=x") None
       (Some "https://example.org/cat.png") None
       (Some "summary") (Some "standard") "10.0.0.1" None)
    (Analysed (ImageToTextResponse.mk "a cat" None)) (owner42, 1) one_key_store
  = (RaisesHTTP 422, one_key_store).
Proof.
  apply (image_checks_reject_unrecorded one_key_store 1%float 1.5%float 40
           (ImageRequest.mk (Some "multipart/form-data; boundary=x") None
              (Some "https://example.org/cat.png") None
              (Some "summary") (Some "standard") "10.0.0.1" None)).
  - reflexivity.
  - left. reflexivity.
Defined.

(** ** Tokens and digests *)

Lemma bytes_forall1 (p : Z -> bool) :
  forallb p (seqZ 0 256) = true -> ∀ a, is_byte a -> p a = true.
Proof.
  intros Hall a Ha. rewrite forallb_forall in Hall. apply Hall.
  apply list_elem_of_In, elem_of_seqZ. unfold is_byte in Ha. lia.
Qed.

Lemma bytes_forall2 (p : Z -> Z -> bool) :
  forallb (fun a => forallb (p a) (seqZ 0 256)) (seqZ 0 256) = true ->
  ∀ a b, is_byte a -> is_byte b -> p a b = true.
Proof.
  intros Hall a b Ha Hb.
  apply (bytes_forall1 (p a)); [|exact Hb].
  by apply (bytes_forall1 (fun a => forallb (p a) (seqZ 0 256))).
Qed.

(** Each fact about one or two bytes is checked by evaluation over all of
    them. *)
Ltac all_bytes1 p :=
  apply (bytes_forall1 p); [vm_compute; reflexivity|assumption].
Ltac all_bytes2 p :=
  apply (bytes_forall2 p); [vm_compute; reflexivity|assumption|assumption].

Lemma safe_first a : is_byte a -> url_safe (b64_char (Z.shiftr a 2)) = true.
Proof. intros Ha. all_bytes1 (fun a => url_safe (b64_char (Z.shiftr a 2))). Qed.

Lemma safe_last a : is_byte a -> url_safe (b64_char (Z.land a 63)) = true.
Proof. intros Ha. all_bytes1 (fun a => url_safe (b64_char (Z.land a 63))). Qed.

Lemma safe_tail2 a : is_byte a -> url_safe (b64_char (Z.shiftl (Z.land a 3) 4)) = true.
Proof. intros Ha. all_bytes1 (fun a => url_safe (b64_char (Z.shiftl (Z.land a 3) 4))). Qed.

Lemma safe_tail3 a : is_byte a -> url_safe (b64_char (Z.shiftl (Z.land a 15) 2)) = true.
Proof. intros Ha. all_bytes1 (fun a => url_safe (b64_char (Z.shiftl (Z.land a 15) 2))). Qed.

Lemma safe_sextet2 a b :
  is_byte a -> is_byte b -> url_safe (b64_char (sextet2 a b)) = true.
Proof. intros Ha Hb. all_bytes2 (fun a b => url_safe (b64_char (sextet2 a b))). Qed.

Lemma safe_sextet3 a b :
  is_byte a -> is_byte b -> url_safe (b64_char (sextet3 a b)) = true.
Proof. intros Ha Hb. all_bytes2 (fun a b => url_safe (b64_char (sextet3 a b))). Qed.

Lemma first_byte a b :
  is_byte a -> is_byte b ->
  Z.lor (Z.shiftl (b64_index (b64_char (Z.shiftr a 2))) 2)
        (Z.shiftr (b64_index (b64_char (sextet2 a b))) 4) = a.
Proof.
  intros Ha Hb. apply Z.eqb_eq.
  all_bytes2 (fun a b =>
    Z.lor (Z.shiftl (b64_index (b64_char (Z.shiftr a 2))) 2)
          (Z.shiftr (b64_index (b64_char (sextet2 a b))) 4) =? a).
Qed.

Lemma first_byte_alone a :
  is_byte a ->
  Z.lor (Z.shiftl (b64_index (b64_char (Z.shiftr a 2))) 2)
        (Z.shiftr (b64_index (b64_char (Z.shiftl (Z.land a 3) 4))) 4) = a.
Proof.
  intros Ha. apply Z.eqb_eq.
  all_bytes1 (fun a =>
    Z.lor (Z.shiftl (b64_index (b64_char (Z.shiftr a 2))) 2)
          (Z.shiftr (b64_index (b64_char (Z.shiftl (Z.land a 3) 4))) 4) =? a).
Qed.

Lemma second_byte_high a b :
  is_byte a -> is_byte b ->
  Z.land (b64_index (b64_char (sextet2 a b))) 15 = Z.shiftr b 4.
Proof.
  intros Ha Hb. apply Z.eqb_eq.
  all_bytes2 (fun a b => Z.land (b64_index (b64_char (sextet2 a b))) 15 =? Z.shiftr b 4).
Qed.

Lemma second_byte_low b c :
  is_byte b -> is_byte c ->
  Z.shiftr (b64_index (b64_char (sextet3 b c))) 2 = Z.land b 15.
Proof.
  intros Ha Hb. apply Z.eqb_eq.
  all_bytes2 (fun b c => Z.shiftr (b64_index (b64_char (sextet3 b c))) 2 =? Z.land b 15).
Qed.

Lemma second_byte_low_alone b :
  is_byte b ->
  Z.shiftr (b64_index (b64_char (Z.shiftl (Z.land b 15) 2))) 2 = Z.land b 15.
Proof.
  intros Ha. apply Z.eqb_eq.
  all_bytes1 (fun b =>
    Z.shiftr (b64_index (b64_char (Z.shiftl (Z.land b 15) 2))) 2 =? Z.land b 15).
Qed.

Lemma second_byte b :
  is_byte b -> Z.lor (Z.shiftl (Z.shiftr b 4) 4) (Z.land b 15) = b.
Proof.
  intros Ha. apply Z.eqb_eq.
  all_bytes1 (fun b => Z.lor (Z.shiftl (Z.shiftr b 4) 4) (Z.land b 15) =? b).
Qed.

Lemma third_byte b c :
  is_byte b -> is_byte c ->
  Z.lor (Z.shiftl (Z.land (b64_index (b64_char (sextet3 b c))) 3) 6)
        (b64_index (b64_char (Z.land c 63))) = c.
Proof.
  intros Ha Hb. apply Z.eqb_eq.
  all_bytes2 (fun b c =>
    Z.lor (Z.shiftl (Z.land (b64_index (b64_char (sextet3 b c))) 3) 6)
          (b64_index (b64_char (Z.land c 63))) =? c).
Qed.

Lemma token_bytes_of_urlsafe_bounded n :
  ∀ l, (length l <= n)%nat -> Forall is_byte l -> token_bytes_of (token_urlsafe l) = l.
Proof.
  induction n as [|n IH]; intros l Hlen Hall.
  - destruct l; [reflexivity|cbn in Hlen; lia].
  - destruct l as [|a [|b [|c rest]]]; [reflexivity| | |].
    + apply Forall_cons in Hall as [Ha _].
      cbn [token_urlsafe token_bytes_of]. by rewrite first_byte_alone.
    + apply Forall_cons in Hall as [Ha Hall]. apply Forall_cons in Hall as [Hb _].
      cbn [token_urlsafe token_bytes_of]. cbv zeta.
      fold (sextet2 a b). rewrite first_byte, second_byte_high by done.
      by rewrite second_byte_low_alone, second_byte.
    + apply Forall_cons in Hall as [Ha Hall]. apply Forall_cons in Hall as [Hb Hall].
      apply Forall_cons in Hall as [Hc Hall].
      cbn [token_urlsafe token_bytes_of]. cbv zeta.
      fold (sextet2 a b) (sextet3 b c).
      rewrite first_byte, second_byte_high, second_byte_low, second_byte, third_byte
        by done.
      rewrite IH; [reflexivity| |exact Hall]. cbn in Hlen. lia.
Qed.

(** X20. A token determines its random bytes: [token_urlsafe] maps two
    different byte strings to two different tokens, so that two draws of
    [generate_api_key] give the same secret only if the random source gave
    the same 32 bytes. *)
Theorem token_urlsafe_is_injective (l l' : list Z) :
  Forall is_byte l -> Forall is_byte l' ->
  token_urlsafe l = token_urlsafe l' -> l = l'.
Proof.
  intros Hl Hl' E.
  rewrite <- (token_bytes_of_urlsafe_bounded (length l) l), E by done.
  by apply (token_bytes_of_urlsafe_bounded (length l')).
Qed.

Lemma is_byte_seqZ m n : 0 <= m -> m + n <= 256 -> Forall is_byte (seqZ m n).
Proof.
  intros Hm Hn. apply Forall_forall. intros x Hx. apply elem_of_seqZ in Hx.
  unfold is_byte. lia.
Qed.

Lemma token_urlsafe_is_injective_witness :
  Forall is_byte (bytes_a 32%nat)
  ∧ token_urlsafe (bytes_a 32%nat) = token_urlsafe (seqZ 0 32)
  ∧ bytes_a 32%nat = seqZ 0 32.
Proof.
  assert (Hbytes : Forall is_byte (bytes_a 32%nat)) by (apply is_byte_seqZ; cbn; lia).
  split; [exact Hbytes|]. split; [reflexivity|].
  apply (token_urlsafe_is_injective (bytes_a 32%nat) (seqZ 0 32));
    [exact Hbytes|exact Hbytes|reflexivity].
Defined.

Lemma str_take_8_of_token a1 a2 a3 a4 a5 a6 rest :
  str_take 8 (token_urlsafe (a1 :: a2 :: a3 :: a4 :: a5 :: a6 :: rest))
  = token_urlsafe [a1; a2; a3; a4; a5; a6].
Proof. reflexivity. Qed.

(** X21. The lookup prefix of a credential is the first six random bytes
    of its secret: for tokens of at least six bytes, the first 8
    characters of two tokens are equal exactly when their first six bytes
    are, so that two credentials collide on [key_prefix] exactly when the
    random source repeated those 48 bits. *)
Theorem key_prefix_is_six_bytes (l l' : list Z) :
  (6 <= length l)%nat -> (6 <= length l')%nat ->
  Forall is_byte l -> Forall is_byte l' ->
  str_take 8 (token_urlsafe l) = str_take 8 (token_urlsafe l') <-> take 6 l = take 6 l'.
Proof.
  intros Hlen Hlen' Hl Hl'.
  do 6 (destruct l as [|? l]; [cbn in Hlen; lia|]).
  do 6 (destruct l' as [|? l']; [cbn in Hlen'; lia|]).
  rewrite !str_take_8_of_token. cbn [take].
  do 6 (apply Forall_cons in Hl as [? Hl]).
  do 6 (apply Forall_cons in Hl' as [? Hl']).
  split.
  - apply token_urlsafe_is_injective;
      repeat (apply Forall_cons_2; [assumption|]); constructor.
  - intros [= -> -> -> -> -> ->]. reflexivity.
Qed.

Lemma key_prefix_is_six_bytes_witness :
  str_take 8 (token_urlsafe (bytes_a 32%nat)) = str_take 8 (token_urlsafe (bytes_b 32%nat))
  <-> take 6 (bytes_a 32%nat) = take 6 (bytes_b 32%nat).
Proof.
  apply key_prefix_is_six_bytes.
  - vm_compute. lia.
  - vm_compute. lia.
  - apply is_byte_seqZ; cbn; lia.
  - unfold is_byte. apply (bool_decide_unpack _). vm_compute. exact I.
Defined.

Lemma token_urlsafe_safe_bounded n :
  ∀ l, (length l <= n)%nat -> Forall is_byte l ->
       str_forall url_safe (token_urlsafe l) = true.
Proof.
  induction n as [|n IH]; intros l Hlen Hall.
  - destruct l; [reflexivity|cbn in Hlen; lia].
  - destruct l as [|a [|b [|c rest]]]; [reflexivity| | |].
    + apply Forall_cons in Hall as [Ha _].
      cbn [token_urlsafe str_forall]. by rewrite safe_first, safe_tail2.
    + apply Forall_cons in Hall as [Ha Hall]. apply Forall_cons in Hall as [Hb _].
      cbn [token_urlsafe str_forall]. fold (sextet2 a b).
      by rewrite safe_first, safe_sextet2, safe_tail3.
    + apply Forall_cons in Hall as [Ha Hall]. apply Forall_cons in Hall as [Hb Hall].
      apply Forall_cons in Hall as [Hc Hall].
      cbn [token_urlsafe str_forall]. fold (sextet2 a b) (sextet3 b c).
      rewrite safe_first, safe_sextet2, safe_sextet3, safe_last by done.
      apply IH; [|exact Hall]. cbn in Hlen. lia.
Qed.

Lemma str_take_forall p n s :
  str_forall p s = true -> str_forall p (str_take n s) = true.
Proof.
  revert s. induction n as [|n IH]; intros [|c s]; try reflexivity.
  unfold str_take; fold str_take. cbn [str_forall].
  intros [Hc Hs]%andb_prop. by rewrite Hc, IH.
Qed.

Lemma str_take_length_min n s :
  String.length (str_take n s) = Nat.min n (String.length s).
Proof.
  revert s. induction n as [|n IH]; intros [|c s]; try reflexivity.
  unfold str_take; fold str_take. cbn [String.length Nat.min]. by rewrite IH.
Qed.

Lemma nibble_hex_lower i x : hex_lower (SHA256.nibble i x) = true.
Proof.
  unfold SHA256.nibble. change 0xF with (Z.ones 4).
  rewrite Z.land_ones by lia.
  assert (Hn : Z.shiftr x (4 * i) mod 2 ^ 4 ∈ seqZ 0 16).
  { apply elem_of_seqZ. pose proof (Z.mod_pos_bound (Z.shiftr x (4 * i)) (2 ^ 4)). lia. }
  revert Hn. generalize (Z.shiftr x (4 * i) mod 2 ^ 4). intros n Hn.
  apply list_elem_of_In in Hn. revert n Hn. apply forallb_forall.
  vm_compute. reflexivity.
Qed.

Lemma hexdigest_hex_lower st : str_forall hex_lower (SHA256.hexdigest st) = true.
Proof.
  unfold SHA256.hexdigest, SHA256.hex8. cbn [str_forall].
  rewrite !nibble_hex_lower. reflexivity.
Qed.

(** X22. What is issued has the shape the lookup expects: for 32 random
    bytes the secret has 43 characters of the URL-safe alphabet, and the
    stored credential has a [key_prefix] of exactly 8 such characters and
    a [key_hash] of 64 lower-case hexadecimal digits. *)
Theorem issued_credential_shape (s : Store) (token_bytes : nat -> list Z)
    (now user_id : Z) (name : string) :
  length (token_bytes 32%nat) = 32%nat ->
  Forall is_byte (token_bytes 32%nat) ->
  let token := generate_api_key token_bytes in
  ∃ k s1,
    APIKeyService.create_api_key token now user_id name s = Ok ((k, token), s1)
    ∧ String.length token = 43%nat
    ∧ str_forall url_safe token = true
    ∧ String.length (APIKey.key_prefix k) = 8%nat
    ∧ str_forall url_safe (APIKey.key_prefix k) = true
    ∧ String.length (APIKey.key_hash k) = 64%nat
    ∧ str_forall hex_lower (APIKey.key_hash k) = true.
Proof.
  intros Hlen Hbytes token.
  pose proof (generate_api_key_length token_bytes Hlen) as Hlen43. fold token in Hlen43.
  assert (Hsafe : str_forall url_safe token = true).
  { apply (token_urlsafe_safe_bounded 32); [lia|exact Hbytes]. }
  rewrite create_api_key_run. cbv zeta. eexists _, _. split; [reflexivity|].
  cbn [APIKey.key_prefix APIKey.key_hash].
  split; [exact Hlen43|]. split; [exact Hsafe|].
  split; [by rewrite str_take_length_min, Hlen43|].
  split; [by apply str_take_forall|].
  split; [apply get_api_key_hash_length|apply hexdigest_hex_lower].
Qed.

Lemma issued_credential_shape_witness :
  ∃ k s1,
    APIKeyService.create_api_key (generate_api_key bytes_c) 10 42 "first" empty_store
    = Ok ((k, generate_api_key bytes_c), s1)
    ∧ String.length (generate_api_key bytes_c) = 43%nat
    ∧ str_forall url_safe (generate_api_key bytes_c) = true
    ∧ String.length (APIKey.key_prefix k) = 8%nat
    ∧ str_forall url_safe (APIKey.key_prefix k) = true
    ∧ String.length (APIKey.key_hash k) = 64%nat
    ∧ str_forall hex_lower (APIKey.key_hash k) = true.
Proof.
  apply (issued_credential_shape empty_store bytes_c 10 42 "first").
  - reflexivity.
  - apply is_byte_seqZ; cbn; lia.
Defined.
